(** * alembic_utils.pg_function: a shallow embedding

    The development follows [src/alembic_utils/pg_function.py].  A Python
    [str] is a Rocq [string]; its characters are the code points below 256,
    which is where the ASCII keywords of the parsing template, the
    whitespace classes of [str.split], [str.strip] and the regular
    expression class [\s], and [str.lower] are defined below. *)

From Stdlib Require Import Bool Arith List Ascii String ZArith Lia.
Import ListNotations.

Local Open Scope list_scope.
Local Open Scope string_scope.
Local Open Scope nat_scope.

(** ** Characters *)

Module Char.

(** [str.isspace] on one character, which is also the class [\s] of the
    [re] module on [str] patterns: TAB, LF, VT, FF, CR, the four separators
    FS, GS, RS, US, the space, NEL (0x85) and the no-break space (0xA0). *)
Definition isspace (c : ascii) : bool :=
  let n := nat_of_ascii c in
  ((9 <=? n) && (n <=? 13)) || ((28 <=? n) && (n <=? 32))
  || (n =? 133) || (n =? 160).

(** [str.lower] on one character: A-Z and the Latin-1 capitals 0xC0-0xDE
    (but not the multiplication sign 0xD7) move up by 32. *)
Definition lower (c : ascii) : ascii :=
  let n := nat_of_ascii c in
  if ((65 <=? n) && (n <=? 90))
     || ((192 <=? n) && (n <=? 222) && negb (n =? 215))
  then ascii_of_nat (n + 32) else c.

(** Equality of two characters under [re.IGNORECASE]. *)
Definition ci_eqb (a c : ascii) : bool := Ascii.eqb (lower a) (lower c).

End Char.

(** ** The [str] methods the module uses *)

Module Str.

(** [s.lower()] *)
Fixpoint lower (s : string) : string :=
  match s with
  | EmptyString => EmptyString
  | String c s' => String (Char.lower c) (lower s')
  end.

(** [s.lstrip()] *)
Fixpoint lstrip (s : string) : string :=
  match s with
  | EmptyString => EmptyString
  | String c s' => if Char.isspace c then lstrip s' else s
  end.

(** [s.rstrip()] *)
Fixpoint rstrip (s : string) : string :=
  match s with
  | EmptyString => EmptyString
  | String c s' =>
      match rstrip s' with
      | EmptyString => if Char.isspace c then EmptyString else String c EmptyString
      | r => String c r
      end
  end.

(** [s.strip()] *)
Definition strip (s : string) : string := rstrip (lstrip s).

(** [s.split()]: the maximal runs of characters that are not whitespace,
    in order.  [w] is the word being read. *)
Definition flush (w : string) : list string :=
  match w with
  | EmptyString => []
  | _ => [w]
  end.

Fixpoint split_from (w s : string) : list string :=
  match s with
  | EmptyString => flush w
  | String c s' =>
      if Char.isspace c then (flush w ++ split_from EmptyString s')%list
      else split_from (w ++ String c EmptyString) s'
  end.

Definition split (s : string) : list string := split_from EmptyString s.

(** [sep.join(ws)] *)
Definition join (sep : string) (ws : list string) : string :=
  String.concat sep ws.

(** [s.split(sep)[0]] for a one-character separator: the text before the
    first occurrence of [sep], all of [s] when there is none. *)
Fixpoint before (sep : ascii) (s : string) : string :=
  match s with
  | EmptyString => EmptyString
  | String c s' => if Ascii.eqb c sep then EmptyString else String c (before sep s')
  end.

(** [sub in s] *)
Fixpoint contains (sub s : string) : bool :=
  String.prefix sub s ||
  match s with
  | EmptyString => false
  | String _ s' => contains sub s'
  end.

End Str.

(** ** PGFunction *)

Record PGFunction : Type := mkPGFunction {
  schema : string;
  signature : string;
  definition : string
}.

(** [PGFunction._normalize_whitespace], with the default [base_whitespace] *)
Definition _normalize_whitespace (text : string) : string :=
  Str.join " " (Str.split text).

Definition is_equal_definition (self other : PGFunction) : bool :=
  let def1 := _normalize_whitespace (definition self) in
  let def2 := _normalize_whitespace (definition other) in
  String.eqb def1 def2.

Definition is_equal_signature (self other : PGFunction) : bool :=
  let def1 := _normalize_whitespace (signature self) in
  let def2 := _normalize_whitespace (signature other) in
  String.eqb def1 def2 && String.eqb (schema self) (schema other).

(** ** The template of [from_sql], as the [parse] package reads it

    [parse(template, text, case_sensitive=False)] compiles the template to
    a regular expression anchored at both ends and matched with
    [re.IGNORECASE | re.DOTALL]: literal text stands for itself, a field
    [{:s}] for the greedy [(\s+)], and a named field without a type for the
    lazy [(.+?)].  The matchers below are written in continuation-passing
    style and search in the order of the backtracking of [re]: a greedy
    repetition tries the longest run first, a lazy one the shortest. *)

Module Template.

Section Matchers.

Context {R : Type}.

(** Literal text, letters compared without case. *)
Fixpoint lit (p : string) (k : string -> option R) (s : string) : option R :=
  match p with
  | EmptyString => k s
  | String a p' =>
      match s with
      | EmptyString => None
      | String c s' => if Char.ci_eqb a c then lit p' k s' else None
      end
  end.

(** [\s*], greedy. *)
Fixpoint ws_star (k : string -> option R) (s : string) : option R :=
  match s with
  | EmptyString => k s
  | String c s' =>
      if Char.isspace c then
        match ws_star k s' with
        | Some r => Some r
        | None => k s
        end
      else k s
  end.

(** [{:s}], that is [\s+], greedy. *)
Definition ws_plus (k : string -> option R) (s : string) : option R :=
  match s with
  | EmptyString => None
  | String c s' => if Char.isspace c then ws_star k s' else None
  end.

(** [.*?] after the text [acc] already taken, lazy; with [re.DOTALL] the
    dot matches every character. *)
Fixpoint lazy_star (acc : string) (k : string -> string -> option R)
    (s : string) {struct s} : option R :=
  match k acc s with
  | Some r => Some r
  | None =>
      match s with
      | EmptyString => None
      | String c s' => lazy_star (acc ++ String c EmptyString) k s'
      end
  end.

(** [{name}], that is [(.+?)], lazy; the continuation receives the text of
    the group. *)
Definition lazy_plus (k : string -> string -> option R) (s : string) : option R :=
  match s with
  | EmptyString => None
  | String c s' => lazy_star (String c EmptyString) k s'
  end.

(** The end of the text. *)
Definition eos (r : R) (s : string) : option R :=
  match s with
  | EmptyString => Some r
  | String _ _ => None
  end.

End Matchers.

(** The three named groups of a match. *)
Record result : Type := mkResult {
  r_schema : string;
  r_signature : string;
  r_definition : string
}.

(** [parse("create{:s}or{:s}replace{:s}function{:s}{schema}.{signature}{:s}returns{:s}{definition}",
           text, case_sensitive=False)] *)
Definition parse (text : string) : option result :=
  let definition_ sch sig := lazy_plus (fun def => eos (mkResult sch sig def)) in
  let signature_ sch :=
    lazy_plus (fun sig => ws_plus (lit "returns" (ws_plus (definition_ sch sig)))) in
  let schema_ := lazy_plus (fun sch => lit "." (signature_ sch)) in
  lit "create" (ws_plus (lit "or" (ws_plus (lit "replace" (ws_plus
    (lit "function" (ws_plus schema_))))))) text.

End Template.

(** [PGFunction.from_sql] *)
Definition from_sql (sql : string) : option PGFunction :=
  match Template.parse (Str.strip sql) with
  | Some result =>
      let schema := Template.r_schema result in
      let signature := Template.r_signature result in
      let definition := "returns " ++ Template.r_definition result in
      Some (mkPGFunction schema signature definition)
  | None => None
  end.

(** [PGFunction.from_path]; [files] gives the text of the file at a path,
    and the result is [None] when opening the file raises. *)
Definition from_path (files : string -> option string) (path : string)
  : option (option PGFunction) :=
  match files path with
  | Some sql => Some (from_sql sql)
  | None => None
  end.

Definition to_sql_statement_create (self : PGFunction) : string :=
  "CREATE FUNCTION " ++ schema self ++ "." ++ signature self ++ " " ++ definition self.

Definition to_sql_statement_drop (self : PGFunction) : string :=
  "DROP FUNCTION " ++ schema self ++ "." ++ signature self.

Definition to_sql_statement_create_or_replace (self : PGFunction) : string :=
  "CREATE OR REPLACE FUNCTION " ++ schema self ++ "." ++ signature self ++ " "
  ++ definition self.

(** ** [hashlib.md5] (RFC 1321) over 32-bit words held in [Z] *)

Module MD5.

Local Open Scope Z_scope.

Definition mask : Z := 4294967295.
Definition add32 (x y : Z) : Z := Z.land (x + y) mask.
Definition not32 (x : Z) : Z := Z.lxor x mask.
Definition rotl32 (x : Z) (c : Z) : Z :=
  Z.land (Z.lor (Z.shiftl x c) (Z.shiftr x (32 - c))) mask.

Definition K : list Z :=
  [ 3614090360; 3905402710; 606105819; 3250441966;
    4118548399; 1200080426; 2821735955; 4249261313;
    1770035416; 2336552879; 4294925233; 2304563134;
    1804603682; 4254626195; 2792965006; 1236535329;
    4129170786; 3225465664; 643717713; 3921069994;
    3593408605; 38016083; 3634488961; 3889429448;
    568446438; 3275163606; 4107603335; 1163531501;
    2850285829; 4243563512; 1735328473; 2368359562;
    4294588738; 2272392833; 1839030562; 4259657740;
    2763975236; 1272893353; 4139469664; 3200236656;
    681279174; 3936430074; 3572445317; 76029189;
    3654602809; 3873151461; 530742520; 3299628645;
    4096336452; 1126891415; 2878612391; 4237533241;
    1700485571; 2399980690; 4293915773; 2240044497;
    1873313359; 4264355552; 2734768916; 1309151649;
    4149444226; 3174756917; 718787259; 3951481745 ].

Definition shifts : list Z :=
  [ 7; 12; 17; 22; 7; 12; 17; 22; 7; 12; 17; 22; 7; 12; 17; 22;
    5; 9; 14; 20; 5; 9; 14; 20; 5; 9; 14; 20; 5; 9; 14; 20;
    4; 11; 16; 23; 4; 11; 16; 23; 4; 11; 16; 23; 4; 11; 16; 23;
    6; 10; 15; 21; 6; 10; 15; 21; 6; 10; 15; 21; 6; 10; 15; 21 ].

Record state : Type := mkState { sA : Z; sB : Z; sC : Z; sD : Z }.

Definition init : state :=
  mkState 1732584193 4023233417 2562383102 271733878.

(** One of the 64 operations of a block; [M] holds its sixteen words. *)
Definition step (M : list Z) (st : state) (i : nat) : state :=
  let '(mkState a b c d) := st in
  let iz := Z.of_nat i in
  let '(f, g) :=
    if (i <? 16)%nat then (Z.lor (Z.land b c) (Z.land (not32 b) d), iz)
    else if (i <? 32)%nat then
      (Z.lor (Z.land d b) (Z.land (not32 d) c), (5 * iz + 1) mod 16)
    else if (i <? 48)%nat then (Z.lxor b (Z.lxor c d), (3 * iz + 5) mod 16)
    else (Z.lxor c (Z.lor b (not32 d)), (7 * iz) mod 16) in
  let f' := add32 (add32 (add32 f a) (nth i K 0)) (nth (Z.to_nat g) M 0) in
  mkState d (add32 b (rotl32 f' (nth i shifts 0))) b c.

(** Four bytes, least significant first, as one word. *)
Definition word_le (b0 b1 b2 b3 : Z) : Z :=
  b0 + 256 * b1 + 65536 * b2 + 16777216 * b3.

Fixpoint words (n : nat) (bytes : list Z) : list Z :=
  match n, bytes with
  | S n', b0 :: b1 :: b2 :: b3 :: rest => word_le b0 b1 b2 b3 :: words n' rest
  | _, _ => []
  end.

Definition block (st : state) (chunk : list Z) : state :=
  let M := words 16 chunk in
  let st' := fold_left (step M) (seq 0 64) st in
  mkState (add32 (sA st) (sA st')) (add32 (sB st) (sB st'))
          (add32 (sC st) (sC st')) (add32 (sD st) (sD st')).

(** The blocks of the padded message; [n] bounds their number. *)
Fixpoint blocks (n : nat) (st : state) (bytes : list Z) : state :=
  match n, bytes with
  | S n', _ :: _ => blocks n' (block st (firstn 64 bytes)) (skipn 64 bytes)
  | _, _ => st
  end.

Definition bytes_le (n : nat) (x : Z) : list Z :=
  map (fun i => Z.land (Z.shiftr x (8 * Z.of_nat i)) 255) (seq 0 n).

(** The message, the byte 0x80, zeros up to 56 modulo 64, and the length in
    bits on eight bytes. *)
Definition pad (msg : list Z) : list Z :=
  let len := Z.of_nat (List.length msg) in
  let zeros := Z.to_nat ((55 - len) mod 64) in
  (msg ++ 128 :: repeat 0 zeros ++ bytes_le 8 (Z.land (8 * len) 18446744073709551615))%list.

Definition digest (msg : list Z) : list Z :=
  let p := pad msg in
  let st := blocks (List.length p) init p in
  (bytes_le 4 (sA st) ++ bytes_le 4 (sB st) ++ bytes_le 4 (sC st)
   ++ bytes_le 4 (sD st))%list.

Definition hex_digit (n : Z) : ascii :=
  ascii_of_nat (Z.to_nat (if n <? 10 then 48 + n else 87 + n)).

Fixpoint hex (bytes : list Z) : string :=
  match bytes with
  | [] => EmptyString
  | b :: rest => String (hex_digit (b / 16)) (String (hex_digit (b mod 16)) (hex rest))
  end.

(** [text.encode()]: UTF-8 of the code points below 256. *)
Fixpoint encode (text : string) : list Z :=
  match text with
  | EmptyString => []
  | String c rest =>
      let n := Z.of_nat (nat_of_ascii c) in
      if n <? 128 then n :: encode rest
      else (192 + n / 64) :: (128 + n mod 64) :: encode rest
  end.

(** [md5(text.encode()).hexdigest()] *)
Definition hexdigest (text : string) : string := hex (digest (encode text)).

End MD5.

(** [PGFunction.to_variable_name] *)
Definition to_variable_name (self : PGFunction) : string :=
  let schema_name := Str.strip (Str.lower (schema self)) in
  let function_name := Str.lower (Str.strip (Str.before "(" (signature self))) in
  let signature := _normalize_whitespace (Str.lower (signature self)) in
  let signature_md5 := MD5.hexdigest signature in
  schema_name ++ "_" ++ function_name ++ "_" ++ signature_md5.

(** ** Exceptions and the connection *)

Inductive exn : Type :=
| AssertionError
| AttributeError
| DatabaseError.

Inductive outcome (A : Type) : Type :=
| Return (a : A)
| Raise (e : exn).

Arguments Return {A} a.
Arguments Raise {A} e.

(** One row of the catalog query of [get_db_functions], in the order of its
    select list. *)
Record row : Type := mkRow {
  function_schema : string;
  function_name : string;
  function_arguments : string;
  create_statement : string;
  return_type : string;
  function_language : string
}.

(** What the module asks of the database behind a connection: to run a
    statement that returns no rows ([None] when the database refuses it),
    and to answer the catalog query of [get_db_functions] for the text put
    in the place of [{schema}] in its [like] clause. *)
Class Database (db : Type) : Type := {
  db_execute : string -> db -> option db;
  pg_proc : string -> db -> list row
}.

(** A connection: the database behind it and the statements sent through
    [connection.execute] so far, oldest first. *)
Record connection (db : Type) : Type := mkConnection {
  backend : db;
  executed : list string
}.

Arguments mkConnection {db} backend executed.
Arguments backend {db} c.
Arguments executed {db} c.

(** Code that uses a connection and may raise. *)
Definition M (db A : Type) : Type := connection db -> outcome A * connection db.

Definition ret {db A : Type} (a : A) : M db A := fun c => (Return a, c).

Definition raise {db A : Type} (e : exn) : M db A := fun c => (Raise e, c).

Definition bind {db A B : Type} (m : M db A) (f : A -> M db B) : M db B :=
  fun c =>
    match m c with
    | (Return a, c') => f a c'
    | (Raise e, c') => (Raise e, c')
    end.

Notation "x <- m ;; f" := (bind m (fun x => f))
  (at level 61, m at next level, right associativity).
Notation "m ;;; f" := (bind m (fun _ => f))
  (at level 61, right associativity).

(** ** Operations *)

Inductive op_class : Type :=
| CreateFunctionOp
| DropFunctionOp
| ReplaceFunctionOp
| RevertFunctionOp.

(** An instance [cls(target)] of one of the four classes. *)
Record ReversibleOp : Type := mkOp {
  cls : op_class;
  target : PGFunction
}.

(** Modelled from the spec: [ReversibleOp.reverse] of
    [alembic_utils.reversible_op], the base class, which is not among the
    sources.  [RevertFunctionOp] overrides nothing, and the spec gives
    Revert no defined reverse: there is no result. *)
Definition ReversibleOp_reverse (self : ReversibleOp) : option ReversibleOp := None.

(** [reverse] of the four classes. *)
Definition reverse (self : ReversibleOp) : option ReversibleOp :=
  match cls self with
  | CreateFunctionOp => Some (mkOp DropFunctionOp (target self))
  | DropFunctionOp => Some (mkOp CreateFunctionOp (target self))
  | ReplaceFunctionOp => Some (mkOp RevertFunctionOp (target self))
  | RevertFunctionOp => ReversibleOp_reverse self
  end.

Section WithDatabase.

Context {db : Type} `{Database db}.

(** [connection.execute(sql)] for a statement without rows. *)
Definition execute (sql : string) : M db unit :=
  fun c =>
    let log := (executed c ++ [sql])%list in
    match db_execute sql (backend c) with
    | Some d => (Return tt, mkConnection d log)
    | None => (Raise DatabaseError, mkConnection (backend c) log)
    end.

(** [connection.execute(sql).fetchall()] for the catalog query. *)
Definition fetchall (schema : string) : M db (list row) :=
  fun c => (Return (pg_proc schema (backend c)), c).

(** The loop [for func in db_functions: assert func is not None]. *)
Fixpoint assert_not_none (db_functions : list (option PGFunction))
  : outcome (list PGFunction) :=
  match db_functions with
  | [] => Return []
  | None :: _ => Raise AssertionError
  | Some func :: rest =>
      match assert_not_none rest with
      | Return funcs => Return (func :: funcs)
      | Raise e => Raise e
      end
  end.

(** [PGFunction.get_db_functions]; the default of [schema] is ["%"]. *)
Definition get_db_functions (schema : string) : M db (list PGFunction) :=
  rows <- fetchall schema ;;
  let db_functions := map (fun x => from_sql (create_statement x)) rows in
  match assert_not_none db_functions with
  | Return funcs => ret funcs
  | Raise e => raise e
  end.

(** [PGFunction.get_db_definition] *)
Definition get_db_definition (self : PGFunction) : M db (option PGFunction) :=
  db_functions <- get_db_functions (schema self) ;;
  let matches := filter (is_equal_signature self) db_functions in
  match matches with
  | [] => ret None
  | db_match :: _ => ret (Some db_match)
  end.

(** The target of the comparison inside the scratch schema. *)
Definition adjusted_target (self : PGFunction) : PGFunction :=
  mkPGFunction "alembic_autogen" (signature self) (definition self).

(** [PGFunction.get_required_migration_op]; the result is the class of the
    operation, or [None].  Comparing with a lookup that found nothing reads
    [definition] of [None] and raises. *)
Definition get_required_migration_op (self : PGFunction) : M db (option op_class) :=
  db_live <- get_db_definition self ;;
  match db_live with
  | None => ret (Some CreateFunctionOp)
  | Some db_live =>
      let adjusted_target := adjusted_target self in
      execute ("create schema if not exists " ++ schema adjusted_target ++ ";") ;;;
      execute ("CREATE OR REPLACE FUNCTION " ++ schema adjusted_target ++ "."
               ++ signature adjusted_target ++ " " ++ definition adjusted_target) ;;;
      temporary_db_version <- get_db_definition adjusted_target ;;
      needs_update <-
        match temporary_db_version with
        | Some other => ret (negb (is_equal_definition db_live other))
        | None => raise AttributeError
        end ;;
      execute "drop schema alembic_autogen cascade;" ;;;
      if (needs_update : bool) then ret (Some ReplaceFunctionOp) else ret None
  end.

(** The body of [compare_registered_pg_functions].  [upgrade_ops.ops] is a
    list changed in place: it is given back as it stands when the loop
    ends and also when a comparison raises. *)
Fixpoint compare_registered_pg_functions (pg_functions : list PGFunction)
    (ops : list ReversibleOp) (c : connection db)
  : outcome unit * list ReversibleOp * connection db :=
  match pg_functions with
  | [] => (Return tt, ops, c)
  | function :: rest =>
      match get_required_migration_op function c with
      | (Return maybe_op, c') =>
          match maybe_op with
          | Some op =>
              compare_registered_pg_functions rest (ops ++ [mkOp op function])%list c'
          | None => compare_registered_pg_functions rest ops c'
          end
      | (Raise e, c') => (Raise e, ops, c')
      end
  end.

End WithDatabase.

(** ** Rendering *)

Definition nl : string := String "010" EmptyString.
Definition dq : string := String "034" EmptyString.
Definition dq3 : string := dq ++ dq ++ dq.

Definition render_create_function (op : ReversibleOp) : string :=
  let var_name := to_variable_name (target op) in
  var_name ++ " = PGFunction(" ++ nl
  ++ "        schema=" ++ dq ++ schema (target op) ++ dq ++ "," ++ nl
  ++ "        signature=" ++ dq ++ signature (target op) ++ dq ++ "," ++ nl
  ++ "        definition=" ++ dq3 ++ definition (target op) ++ dq3 ++ nl
  ++ "    )" ++ nl
  ++ nl
  ++ "op.create_function(" ++ var_name ++ ")" ++ nl
  ++ "    ".

Definition render_drop_function (op : ReversibleOp) : string :=
  let var_name := to_variable_name (target op) in
  var_name ++ " = PGFunction(" ++ nl
  ++ "        schema=" ++ dq ++ schema (target op) ++ dq ++ "," ++ nl
  ++ "        signature=" ++ dq ++ signature (target op) ++ dq ++ "," ++ nl
  ++ "        definition=" ++ dq ++ "# Not Used" ++ dq ++ nl
  ++ "    )" ++ nl
  ++ nl
  ++ "op.drop_function(" ++ var_name ++ ")" ++ nl
  ++ "    ".

Definition render_replace_function (op : ReversibleOp) : string :=
  let var_name := to_variable_name (target op) in
  var_name ++ " = PGFunction(" ++ nl
  ++ "        schema=" ++ dq ++ schema (target op) ++ dq ++ "," ++ nl
  ++ "        signature=" ++ dq ++ signature (target op) ++ dq ++ "," ++ nl
  ++ "        definition=" ++ dq3 ++ definition (target op) ++ dq3 ++ nl
  ++ "    )" ++ nl
  ++ "op.replace_function(" ++ var_name ++ ")" ++ nl
  ++ "    ".

(** [render_revert_function]: the fields are those of the function found
    live; reading them off a lookup that found nothing raises. *)
Definition render_revert_function {db : Type} `{Database db} (op : ReversibleOp)
  : M db string :=
  db_target <- get_db_definition (target op) ;;
  let var_name := to_variable_name (target op) in
  match db_target with
  | None => raise AttributeError
  | Some db_target =>
      ret (var_name ++ " = PGFunction(" ++ nl
           ++ "        schema=" ++ dq ++ schema db_target ++ dq ++ "," ++ nl
           ++ "        signature=" ++ dq ++ signature db_target ++ dq ++ "," ++ nl
           ++ "        definition=" ++ dq3 ++ definition db_target ++ dq3 ++ nl
           ++ "    )" ++ nl
           ++ "op.replace_function(" ++ var_name ++ ")" ++ nl
           ++ "    ")
  end.

(** The renderer registered for the class of [op]. *)
Definition render {db : Type} `{Database db} (op : ReversibleOp) : M db string :=
  match cls op with
  | CreateFunctionOp => ret (render_create_function op)
  | DropFunctionOp => ret (render_drop_function op)
  | ReplaceFunctionOp => ret (render_replace_function op)
  | RevertFunctionOp => render_revert_function op
  end.

(** ** A small database to run the code against

    [MiniPg] keeps the schemas and the rows of the catalog and understands
    the three statements [get_required_migration_op] sends.  It stores a
    function under the statement [to_sql_statement_create_or_replace]
    prints for it. *)

Module MiniPg.

Record state : Type := mkState {
  schemas : list string;
  procs : list row
}.

(** SQL [like]: [%] stands for any run of characters, [_] for any one. *)
Fixpoint like (pattern : string) : string -> bool :=
  match pattern with
  | EmptyString => fun s => match s with EmptyString => true | _ => false end
  | String a pattern' =>
      if Ascii.eqb a "%" then
        fix any (s : string) : bool :=
          like pattern' s
          || match s with
             | EmptyString => false
             | String _ s' => any s'
             end
      else
        fun s =>
          match s with
          | EmptyString => false
          | String c s' => (Ascii.eqb a "_" || Ascii.eqb a c) && like pattern' s'
          end
  end.

(** [s] without the prefix [p], when it starts with it. *)
Fixpoint strip_prefix (p s : string) : option string :=
  match p with
  | EmptyString => Some s
  | String a p' =>
      match s with
      | EmptyString => None
      | String c s' => if Ascii.eqb a c then strip_prefix p' s' else None
      end
  end.

(** [s] without the suffix [suf], when it ends with it. *)
Fixpoint chop_suffix (suf s : string) : option string :=
  if String.eqb s suf then Some EmptyString
  else
    match s with
    | EmptyString => None
    | String c s' => option_map (String c) (chop_suffix suf s')
    end.

Definition has_schema (n : string) (st : state) : bool :=
  existsb (String.eqb n) (schemas st).

Definition row_of (f : PGFunction) : row :=
  mkRow (schema f) (Str.before "(" (signature f)) EmptyString
        (to_sql_statement_create_or_replace f) EmptyString "sql".

Definition same_function (f : PGFunction) (r : row) : bool :=
  String.eqb (function_schema r) (schema f)
  && match from_sql (create_statement r) with
     | Some g => is_equal_signature f g
     | None => false
     end.

(** [create or replace]: the row of the function is replaced in place, or
    added after the others. *)
Fixpoint upsert (f : PGFunction) (rows : list row) : list row :=
  match rows with
  | [] => [row_of f]
  | r :: rest => if same_function f r then row_of f :: rest else r :: upsert f rest
  end.

Definition create_schema (n : string) (st : state) : state :=
  if has_schema n st then st else mkState (schemas st ++ [n])%list (procs st).

Definition drop_schema (n : string) (st : state) : state :=
  mkState (filter (fun m => negb (String.eqb m n)) (schemas st))
          (filter (fun r => negb (String.eqb (function_schema r) n)) (procs st)).

Definition exec (sql : string) (st : state) : option state :=
  match strip_prefix "create schema if not exists " sql with
  | Some r => option_map (fun n => create_schema n st) (chop_suffix ";" r)
  | None =>
      match strip_prefix "drop schema " sql with
      | Some r =>
          match chop_suffix " cascade;" r with
          | Some n => if has_schema n st then Some (drop_schema n st) else None
          | None => None
          end
      | None =>
          match from_sql sql with
          | Some f =>
              if has_schema (schema f) st
              then Some (mkState (schemas st) (upsert f (procs st)))
              else None
          | None => None
          end
      end
  end.

Definition select (pattern : string) (st : state) : list row :=
  filter (fun r => like pattern (function_schema r)) (procs st).

#[global] Instance database : Database state := {
  db_execute := exec;
  pg_proc := select
}.

(** A connection on which nothing was sent yet. *)
Definition connect (st : state) : connection state := mkConnection st [].

End MiniPg.

(** ** The words of the specification *)

Module Spec.

(** Every maximal run of whitespace collapsed to a single space. *)
Fixpoint collapse_ws (s : string) : string :=
  match s with
  | EmptyString => EmptyString
  | String c s' =>
      if Char.isspace c then
        match s' with
        | EmptyString => " "
        | String d _ => if Char.isspace d then collapse_ws s' else String " " (collapse_ws s')
        end
      else String c (collapse_ws s')
  end.

(** A non-empty run of whitespace. *)
Fixpoint all_space (w : string) : bool :=
  match w with
  | EmptyString => true
  | String c w' => Char.isspace c && all_space w'
  end.

Definition ws_run (w : string) : Prop := w <> EmptyString /\ all_space w = true.

(** [p] is the keyword [k] in some letter case. *)
Definition keyword (k p : string) : Prop := Str.lower p = k.

(** The shape [create or replace function <schema>.<signature> returns
    <body>]: keywords in any letter case, whitespace of any length between
    them, the three parts not empty. *)
Definition create_or_replace_shape (text : string) : Prop :=
  exists k1 w1 k2 w2 k3 w3 k4 w4 sch sig w5 k5 w6 body,
    text = k1 ++ w1 ++ k2 ++ w2 ++ k3 ++ w3 ++ k4 ++ w4
           ++ sch ++ "." ++ sig ++ w5 ++ k5 ++ w6 ++ body
    /\ keyword "create" k1 /\ ws_run w1
    /\ keyword "or" k2 /\ ws_run w2
    /\ keyword "replace" k3 /\ ws_run w3
    /\ keyword "function" k4 /\ ws_run w4
    /\ sch <> EmptyString /\ sig <> EmptyString
    /\ ws_run w5 /\ keyword "returns" k5 /\ ws_run w6
    /\ body <> EmptyString.

(** A [CREATE FUNCTION] statement, without [OR REPLACE]. *)
Definition create_function_shape (text : string) : Prop :=
  exists k1 w1 k4 rest,
    text = k1 ++ w1 ++ k4 ++ rest
    /\ keyword "create" k1 /\ ws_run w1 /\ keyword "function" k4.

(** The snippet of a migration script: a value named [var] built from the
    three fields, the third written between the quotes [q], then the call
    of [directive] on it.  The gaps hold nothing but whitespace. *)
Definition snippet (var sch sig q def directive text : string) : Prop :=
  exists g1 g2 g3 g4 g5 g6,
    text = var ++ " = PGFunction(" ++ g1
           ++ "schema=" ++ dq ++ sch ++ dq ++ "," ++ g2
           ++ "signature=" ++ dq ++ sig ++ dq ++ "," ++ g3
           ++ "definition=" ++ q ++ def ++ q ++ g4
           ++ ")" ++ g5
           ++ "op." ++ directive ++ "(" ++ var ++ ")" ++ g6
    /\ all_space g1 = true /\ all_space g2 = true /\ all_space g3 = true
    /\ all_space g4 = true /\ all_space g5 = true /\ all_space g6 = true.

(** [s] starts with the word [returns], in any letter case, which ends
    with [s] or before a whitespace character. *)
Definition returns_word_at (s : string) : bool :=
  match Template.lit "returns" (fun rest => Some rest) s with
  | Some EmptyString => true
  | Some (String c _) => Char.isspace c
  | None => false
  end.

(** [s] holds the word [returns] after a whitespace character. *)
Fixpoint has_returns_word (s : string) : bool :=
  match s with
  | EmptyString => false
  | String c s' => (Char.isspace c && returns_word_at s') || has_returns_word s'
  end.

(** No character of [s] satisfies [p]. *)
Fixpoint no_char (p : ascii -> bool) (s : string) : bool :=
  match s with
  | EmptyString => true
  | String c s' => negb (p c) && no_char p s'
  end.

(** The text without its whitespace characters. *)
Fixpoint without_space (s : string) : string :=
  match s with
  | EmptyString => EmptyString
  | String c s' =>
      if Char.isspace c then without_space s' else String c (without_space s')
  end.

(** A word: not empty, and without whitespace. *)
Definition word (w : string) : Prop :=
  w <> EmptyString /\ no_char Char.isspace w = true.

(** The operations a registration adds: one for each function whose
    comparison gave a class, in the order of the functions. *)
Fixpoint collected (compared : list (PGFunction * option op_class))
  : list ReversibleOp :=
  match compared with
  | [] => []
  | (function, Some op) :: rest => mkOp op function :: collected rest
  | (_, None) :: rest => collected rest
  end.

(** The name of the scratch schema. *)
Definition scratch : string := "alembic_autogen".

(** The three statements of a comparison in the scratch schema. *)
Definition scratch_statements (self : PGFunction) : list string :=
  [ "create schema if not exists alembic_autogen;";
    "CREATE OR REPLACE FUNCTION alembic_autogen." ++ signature self ++ " "
      ++ definition self;
    "drop schema alembic_autogen cascade;" ].

(** The statements a registration sends when every comparison returns:
    none for a function to create, the three of the scratch schema for
    the others. *)
Definition sent (compared : list (PGFunction * option op_class)) : list string :=
  flat_map (fun fr : PGFunction * option op_class =>
              match snd fr with
              | Some CreateFunctionOp => []
              | _ => scratch_statements (fst fr)
              end) compared.

(** The rows of the catalog that belong to the schema [s]. *)
Definition snapshot {db : Type} `{Database db} (s : string) (d : db) : list row :=
  filter (fun r => String.eqb (function_schema r) s) (pg_proc "%" d).

End Spec.

(** ** A database that takes every statement and changes nothing *)

Module Frozen.

Definition state : Type := list row.

#[global] Instance database : Database state := {
  db_execute := fun _ d => Some d;
  pg_proc := fun pattern d =>
    filter (fun r => MiniPg.like pattern (function_schema r)) d
}.

End Frozen.

(** ** The ways through a comparison *)

Section Ways.

Context {db : Type} `{Database db}.

(** The outcomes of a comparison, one for each way through
    [get_required_migration_op]. *)
Inductive run (self : PGFunction) (c : connection db)
  : outcome (option op_class) -> connection db -> Prop :=
| run_lookup_raises : forall e,
    fst (get_db_definition self c) = Raise e ->
    run self c (Raise e) c
| run_create :
    fst (get_db_definition self c) = Return None ->
    run self c (Return (Some CreateFunctionOp)) c
| run_schema_refused : forall live s1 s2 s3,
    fst (get_db_definition self c) = Return (Some live) ->
    Spec.scratch_statements self = [s1; s2; s3] ->
    db_execute s1 (backend c) = None ->
    run self c (Raise DatabaseError) (mkConnection (backend c) (executed c ++ [s1])%list)
| run_function_refused : forall live s1 s2 s3 d1,
    fst (get_db_definition self c) = Return (Some live) ->
    Spec.scratch_statements self = [s1; s2; s3] ->
    db_execute s1 (backend c) = Some d1 ->
    db_execute s2 d1 = None ->
    run self c (Raise DatabaseError) (mkConnection d1 (executed c ++ [s1; s2])%list)
| run_scratch_lookup_raises : forall live s1 s2 s3 d1 d2 e,
    fst (get_db_definition self c) = Return (Some live) ->
    Spec.scratch_statements self = [s1; s2; s3] ->
    db_execute s1 (backend c) = Some d1 ->
    db_execute s2 d1 = Some d2 ->
    fst (get_db_definition (adjusted_target self) (mkConnection d2 [])) = Raise e ->
    run self c (Raise e) (mkConnection d2 (executed c ++ [s1; s2])%list)
| run_scratch_lookup_empty : forall live s1 s2 s3 d1 d2,
    fst (get_db_definition self c) = Return (Some live) ->
    Spec.scratch_statements self = [s1; s2; s3] ->
    db_execute s1 (backend c) = Some d1 ->
    db_execute s2 d1 = Some d2 ->
    fst (get_db_definition (adjusted_target self) (mkConnection d2 [])) = Return None ->
    run self c (Raise AttributeError) (mkConnection d2 (executed c ++ [s1; s2])%list)
| run_drop_refused : forall live s1 s2 s3 d1 d2 tmp,
    fst (get_db_definition self c) = Return (Some live) ->
    Spec.scratch_statements self = [s1; s2; s3] ->
    db_execute s1 (backend c) = Some d1 ->
    db_execute s2 d1 = Some d2 ->
    fst (get_db_definition (adjusted_target self) (mkConnection d2 [])) = Return (Some tmp) ->
    db_execute s3 d2 = None ->
    run self c (Raise DatabaseError) (mkConnection d2 (executed c ++ [s1; s2; s3])%list)
| run_compared : forall live s1 s2 s3 d1 d2 d3 tmp,
    fst (get_db_definition self c) = Return (Some live) ->
    Spec.scratch_statements self = [s1; s2; s3] ->
    db_execute s1 (backend c) = Some d1 ->
    db_execute s2 d1 = Some d2 ->
    fst (get_db_definition (adjusted_target self) (mkConnection d2 [])) = Return (Some tmp) ->
    db_execute s3 d2 = Some d3 ->
    run self c
        (Return (if is_equal_definition live tmp then None else Some ReplaceFunctionOp))
        (mkConnection d3 (executed c ++ [s1; s2; s3])%list).

End Ways.

(** ** Inputs for the examples *)

Module Examples.

Definition to_upper : PGFunction :=
  mkPGFunction "public" "to_upper(some_text text)"
    "returns text as $$ select upper(some_text) $$ language sql".

(** The same function, laid out differently. *)
Definition to_upper_spaced : PGFunction :=
  mkPGFunction "public" "to_upper(some_text  text)"
    ("returns text as" ++ nl ++ "  $$ select upper(some_text) $$" ++ nl ++ "language sql" ++ nl).

(** The same signature with another body. *)
Definition to_upper_changed : PGFunction :=
  mkPGFunction "public" "to_upper(some_text text)"
    "returns text as $$ select upper(some_text) || 'x' $$ language sql".

(** The same function, its definition ending with a newline. *)
Definition with_newline : PGFunction :=
  mkPGFunction "public" "to_upper(some_text text)"
    ("returns text as $$ select upper(some_text) $$ language sql" ++ nl).

(** The same signature with a definition that lacks what [returns]
    announces. *)
Definition to_upper_unfinished : PGFunction :=
  mkPGFunction "public" "to_upper(some_text text)" "returns".

(** A function with another signature. *)
Definition empty_sum : PGFunction :=
  mkPGFunction "public" "empty_sum()" "returns integer as $$ select 0 $$ language sql".

(** The same function in the schema [Public]. *)
Definition to_upper_in_Public : PGFunction :=
  mkPGFunction "Public" "to_upper(some_text text)"
    "returns text as $$ select upper(some_text) $$ language sql".

Definition empty_db : MiniPg.state := MiniPg.mkState ["public"] [].

Definition live_db : MiniPg.state := MiniPg.mkState ["public"] [MiniPg.row_of to_upper].

(** The comparison of [to_upper_changed] with [live_db], run. *)
Definition changed_run : outcome (option op_class) * connection MiniPg.state :=
  Eval vm_compute in get_required_migration_op to_upper_changed (MiniPg.connect live_db).

(** Two functions kept in a schema that bears the name of the scratch
    schema. *)
Definition in_scratch : PGFunction :=
  mkPGFunction "alembic_autogen" "to_upper(some_text text)"
    "returns text as $$ select upper(some_text) $$ language sql".

Definition other_in_scratch : PGFunction :=
  mkPGFunction "alembic_autogen" "to_lower(some_text text)"
    "returns text as $$ select lower(some_text) $$ language sql".

Definition scratch_db : MiniPg.state :=
  MiniPg.mkState ["public"; "alembic_autogen"]
    [MiniPg.row_of in_scratch; MiniPg.row_of other_in_scratch].

End Examples.

(** * Properties *)

(** ** The model on concrete inputs *)

Example normalize_ex :
  _normalize_whitespace (String "009" " returns  int" ++ String "010" "as x ")
  = "returns int as x".
Proof. reflexivity. Qed.

Example md5_empty : MD5.hexdigest EmptyString = "d41d8cd98f00b204e9800998ecf8427e".
Proof. vm_compute. reflexivity. Qed.

Example md5_abc : MD5.hexdigest "abc" = "900150983cd24fb0d6963f7d28e17f72".
Proof. vm_compute. reflexivity. Qed.

Example md5_two_blocks :
  MD5.hexdigest "aaaaaaaaaaaaaaaaaaaaaaaaaaaaaaaaaaaaaaaaaaaaaaaaaaaaaaaaaaaaaaaaaaaaaa"
  = "0f5c6c4e740bfcc08c3c26ccb2673d46".
Proof. vm_compute. reflexivity. Qed.

Example md5_latin1 :
  MD5.hexdigest (String "233" EmptyString) = "66ddcd97cfdeabb2f6fb8a999b4bc76f".
Proof. vm_compute. reflexivity. Qed.

Example from_sql_ex :
  from_sql (nl ++ "  Create  OR" ++ nl ++ "replace function public.to_upper(some_text text)"
            ++ nl ++ "RETURNS text as $$ select upper(some_text) $$ language sql;" ++ nl)
  = Some (mkPGFunction "public" "to_upper(some_text text)"
            "returns text as $$ select upper(some_text) $$ language sql;").
Proof. vm_compute. reflexivity. Qed.

Example from_sql_without_or_replace :
  from_sql "CREATE FUNCTION public.to_upper(some_text text) returns text as $$ select upper(some_text) $$ language sql;"
  = None.
Proof. vm_compute. reflexivity. Qed.


Example diff_create :
  fst (get_required_migration_op Examples.to_upper (MiniPg.connect Examples.empty_db))
  = Return (Some CreateFunctionOp).
Proof. vm_compute. reflexivity. Qed.

Example diff_none :
  fst (get_required_migration_op Examples.to_upper_spaced (MiniPg.connect Examples.live_db))
  = Return None.
Proof. vm_compute. reflexivity. Qed.

Example diff_replace :
  fst (get_required_migration_op Examples.to_upper_changed (MiniPg.connect Examples.live_db))
  = Return (Some ReplaceFunctionOp).
Proof. vm_compute. reflexivity. Qed.

(** ** Reversal *)

(** C3: the reverse of Create(t) is Drop(t), of Drop(t) is Create(t), of
    Replace(t) is Revert(t); Revert has no reverse; reversing Create or Drop
    twice gives the operation back; a reverse never changes the target. *)
Theorem reverse_table :
  forall t : PGFunction,
    reverse (mkOp CreateFunctionOp t) = Some (mkOp DropFunctionOp t)
    /\ reverse (mkOp DropFunctionOp t) = Some (mkOp CreateFunctionOp t)
    /\ reverse (mkOp ReplaceFunctionOp t) = Some (mkOp RevertFunctionOp t)
    /\ reverse (mkOp RevertFunctionOp t) = None
    /\ (forall op op', cls op = CreateFunctionOp \/ cls op = DropFunctionOp ->
          reverse op = Some op' -> reverse op' = Some op)
    /\ (forall op op', reverse op = Some op' -> target op' = target op).
Proof.
  intro t. repeat split; try reflexivity.
  - intros [k u] op' Hk Hr. unfold reverse in Hr. simpl in *.
    destruct Hk as [-> | ->]; inversion Hr; reflexivity.
  - intros [k u] op' Hr. unfold reverse in Hr. simpl in Hr.
    destruct k; inversion Hr; reflexivity.
Qed.

(** ** The catalog reader *)

Lemma assert_not_none_return :
  forall (l : list (option PGFunction)) (funcs : list PGFunction),
    assert_not_none l = Return funcs <-> l = map Some funcs.
Proof.
  induction l as [| [f |] l IH]; intros funcs; simpl.
  - split; intro E.
    + inversion E. reflexivity.
    + destruct funcs; [reflexivity | discriminate].
  - destruct (assert_not_none l) as [fs | e] eqn:E.
    + split; intro E'.
      * inversion E'; subst. simpl. f_equal. apply IH. reflexivity.
      * destruct funcs as [| g funcs]; [discriminate |]. simpl in E'.
        inversion E'; subst. f_equal. f_equal.
        assert (Return fs = Return funcs) as X by (apply IH; reflexivity).
        inversion X. reflexivity.
    + split; intro E'; [discriminate |].
      destruct funcs as [| g funcs]; [discriminate |]. simpl in E'.
      inversion E'; subst.
      assert (Raise e = Return funcs) as X by (apply IH; reflexivity).
      discriminate.
  - split; intro E; [discriminate |].
    destruct funcs; discriminate.
Qed.

Lemma assert_not_none_raise :
  forall (l : list (option PGFunction)) (e : exn),
    assert_not_none l = Raise e <-> e = AssertionError /\ In None l.
Proof.
  induction l as [| [f |] l IH]; intros e; simpl.
  - split; [discriminate | intros [_ []]].
  - destruct (assert_not_none l) as [fs | e'] eqn:E.
    + split; [discriminate |].
      intros [-> [X | X]]; [discriminate |].
      assert (Return fs = Raise AssertionError) as Y by (apply IH; auto).
      discriminate.
    + split.
      * intro X. inversion X; subst.
        destruct (proj1 (IH e) eq_refl) as [-> Hin]. auto.
      * intros [-> _]. f_equal.
        destruct (proj1 (IH e') eq_refl) as [-> _]. reflexivity.
  - split.
    + intro X. inversion X. auto.
    + intros [-> _]. reflexivity.
Qed.

Section Reader.

Context {db : Type} `{Database db}.

Lemma get_db_functions_eq :
  forall (schema : string) (c : connection db),
    get_db_functions schema c
    = (match assert_not_none (map (fun x => from_sql (create_statement x))
                                  (pg_proc schema (backend c))) with
       | Return funcs => Return funcs
       | Raise e => Raise e
       end, c).
Proof.
  intros. unfold get_db_functions, bind, fetchall, ret, raise.
  destruct (assert_not_none _); reflexivity.
Qed.

Lemma get_db_definition_eq :
  forall (self : PGFunction) (c : connection db),
    get_db_definition self c
    = (match fst (get_db_functions (schema self) c) with
       | Return db_functions =>
           Return (hd_error (filter (is_equal_signature self) db_functions))
       | Raise e => Raise e
       end, c).
Proof.
  intros. unfold get_db_definition, bind. rewrite get_db_functions_eq. simpl.
  destruct (assert_not_none _) as [fs | e]; [| reflexivity].
  unfold ret. destruct (filter _ fs); reflexivity.
Qed.

(** A lookup reads the database and not the log of the connection. *)
Lemma get_db_definition_backend :
  forall (self : PGFunction) (c c' : connection db),
    backend c = backend c' ->
    fst (get_db_definition self c) = fst (get_db_definition self c').
Proof.
  intros self c c' E. rewrite !get_db_definition_eq, !get_db_functions_eq.
  simpl. rewrite E. reflexivity.
Qed.

End Reader.

Lemma filter_nil_iff :
  forall (A : Type) (p : A -> bool) (l : list A),
    filter p l = [] <-> (forall x, In x l -> p x = false).
Proof.
  intros A p l. induction l as [| a l IH]; simpl.
  - split; [intros _ x [] | reflexivity].
  - destruct (p a) eqn:E.
    + split; [discriminate |]. intro X. rewrite (X a) in E by auto. discriminate.
    + rewrite IH. split.
      * intros X x [<- | Hin]; auto.
      * intros X x Hin. apply X. auto.
Qed.

Lemma hd_filter_in :
  forall (A : Type) (p : A -> bool) (l : list A) (m : A),
    hd_error (filter p l) = Some m -> In m l /\ p m = true.
Proof.
  intros A p l m E.
  assert (In m (filter p l)) as X.
  { destruct (filter p l); inversion E; subst. left. reflexivity. }
  apply filter_In in X. exact X.
Qed.

(** C8: [get_db_functions] fails with an assertion error exactly when the
    creation statement of some row of the catalog does not parse; when it
    returns, it returns one function for each row, in the order of the
    rows, each the parse of the statement of its row; it neither skips a
    row nor fails otherwise. *)
Theorem get_db_functions_every_row_parses :
  forall (db : Type) (D : Database db) (schema : string) (c : connection db),
    let rows := pg_proc schema (backend c) in
    (fst (get_db_functions schema c) = Raise AssertionError
     <-> exists x, In x rows /\ from_sql (create_statement x) = None)
    /\ (forall funcs, fst (get_db_functions schema c) = Return funcs ->
          List.length funcs = List.length rows
          /\ map Some funcs = map (fun x => from_sql (create_statement x)) rows)
    /\ ((exists funcs, fst (get_db_functions schema c) = Return funcs)
        \/ fst (get_db_functions schema c) = Raise AssertionError)
    /\ snd (get_db_functions schema c) = c.
Proof.
  intros db D schema c rows. rewrite get_db_functions_eq. simpl. fold rows.
  destruct (assert_not_none (map (fun x => from_sql (create_statement x)) rows))
    as [fs | e] eqn:E.
  - apply assert_not_none_return in E.
    repeat split.
    + discriminate.
    + intros [x [Hin Hx]].
      assert (In None (map Some fs)) as X.
      { rewrite <- E. rewrite <- Hx. apply in_map with (f := fun x => from_sql (create_statement x)). exact Hin. }
      apply in_map_iff in X. destruct X as [y [Hy _]]. discriminate.
    + inversion H; subst.
      rewrite <- (length_map Some funcs), <- E, length_map. reflexivity.
    + inversion H; subst. symmetry. exact E.
    + left. exists fs. reflexivity.
  - apply assert_not_none_raise in E. destruct E as [-> Hin].
    repeat split.
    + intros _. apply in_map_iff in Hin. destruct Hin as [x [Hx Hin]].
      exists x. auto.
    + discriminate.
    + discriminate.
    + right. reflexivity.
Qed.

(** C5: when the catalog of the schema of [self] reads as [db_functions],
    [get_db_definition] returns nothing exactly when no entry has the
    signature and schema of [self] under [is_equal_signature]; it returns
    the matching entry when there is exactly one; whatever it returns is an
    entry that matches; and it leaves the connection as it was. *)
Theorem get_db_definition_finds_match :
  forall (db : Type) (D : Database db) (self : PGFunction) (c : connection db)
         (db_functions : list PGFunction),
    fst (get_db_functions (schema self) c) = Return db_functions ->
    (fst (get_db_definition self c) = Return None
     <-> forall x, In x db_functions -> is_equal_signature self x = false)
    /\ (forall m, In m db_functions -> is_equal_signature self m = true ->
          (forall x, In x db_functions -> is_equal_signature self x = true -> x = m) ->
          fst (get_db_definition self c) = Return (Some m))
    /\ (forall m, fst (get_db_definition self c) = Return (Some m) ->
          In m db_functions /\ is_equal_signature self m = true)
    /\ snd (get_db_definition self c) = c.
Proof.
  intros db D self c fs E. rewrite get_db_definition_eq, E. simpl.
  repeat split.
  - intro X. apply filter_nil_iff.
    destruct (filter _ fs); [reflexivity | discriminate].
  - intro X. apply filter_nil_iff in X. rewrite X. reflexivity.
  - intros m Hin Hm Huniq.
    destruct (filter (is_equal_signature self) fs) as [| y l] eqn:F.
    + apply filter_nil_iff with (x := m) in F; [congruence | exact Hin].
    + simpl. do 2 f_equal.
      assert (In y (filter (is_equal_signature self) fs)) as Y by (rewrite F; left; reflexivity).
      apply filter_In in Y. destruct Y. apply Huniq; assumption.
  - inversion H. apply hd_filter_in in H1. tauto.
  - inversion H. apply hd_filter_in in H1. tauto.
Qed.

(** The lookup of [Examples.to_upper_spaced] in [Examples.live_db]. *)
Lemma get_db_definition_finds_match_witness :
  fst (get_db_definition Examples.to_upper_spaced (MiniPg.connect Examples.live_db))
  = Return (Some Examples.to_upper).
Proof.
  apply (get_db_definition_finds_match MiniPg.state MiniPg.database
           Examples.to_upper_spaced (MiniPg.connect Examples.live_db)
           [Examples.to_upper]).
  - vm_compute. reflexivity.
  - left. reflexivity.
  - vm_compute. reflexivity.
  - intros x [<- | []] _. reflexivity.
Defined.

(** ** The diff engine *)

Section Diff.

Context {db : Type} `{Database db}.

Lemma execute_eq :
  forall (sql : string) (c : connection db),
    execute sql c
    = match db_execute sql (backend c) with
      | Some d => (Return tt, mkConnection d (executed c ++ [sql])%list)
      | None => (Raise DatabaseError, mkConnection (backend c) (executed c ++ [sql])%list)
      end.
Proof. reflexivity. Qed.

(** The text of the three statements, as [get_required_migration_op]
    formats them. *)
Lemma scratch_statements_eq :
  forall self : PGFunction,
    Spec.scratch_statements self
    = [ "create schema if not exists " ++ schema (adjusted_target self) ++ ";";
        "CREATE OR REPLACE FUNCTION " ++ schema (adjusted_target self) ++ "."
          ++ signature (adjusted_target self) ++ " " ++ definition (adjusted_target self);
        "drop schema alembic_autogen cascade;" ].
Proof. reflexivity. Qed.

(** Every call takes one of these ways. *)
Lemma get_required_migration_op_run :
  forall (self : PGFunction) (c : connection db),
    run self c (fst (get_required_migration_op self c))
               (snd (get_required_migration_op self c)).
Proof.
  intros self c.
  destruct (get_required_migration_op self c) as [r c'] eqn:G. cbn [fst snd].
  unfold get_required_migration_op, bind in G.
  rewrite (get_db_definition_eq self c) in G.
  destruct (fst (get_db_functions (schema self) c)) as [fs | e] eqn:E0.
  2:{ inversion G; subst. apply run_lookup_raises.
      rewrite get_db_definition_eq, E0. reflexivity. }
  destruct (hd_error (filter (is_equal_signature self) fs)) as [live |] eqn:E1.
  2:{ inversion G; subst. apply run_create.
      rewrite get_db_definition_eq, E0, E1. reflexivity. }
  assert (fst (get_db_definition self c) = Return (Some live)) as L
    by (rewrite get_db_definition_eq, E0, E1; reflexivity).
  pose proof (scratch_statements_eq self) as S.
  cbv zeta in G. rewrite execute_eq in G.
  destruct (db_execute _ (backend c)) as [d1 |] eqn:X1.
  2:{ inversion G; subst. eapply run_schema_refused; eauto. }
  rewrite execute_eq in G. cbn [backend executed] in G.
  destruct (db_execute _ d1) as [d2 |] eqn:X2.
  2:{ inversion G; subst. rewrite <- app_assoc. eapply run_function_refused; eauto. }
  rewrite <- app_assoc in G. cbn [app] in G.
  match type of G with context [mkConnection d2 ?l] => set (c2 := mkConnection d2 l) in G end.
  assert (fst (get_db_definition (adjusted_target self) c2)
          = fst (get_db_definition (adjusted_target self) (mkConnection d2 []))) as B
    by (apply get_db_definition_backend; reflexivity).
  rewrite (get_db_definition_eq (adjusted_target self) c2) in G, B.
  cbn [fst] in B.
  destruct (fst (get_db_functions (schema (adjusted_target self)) c2)) as [fs2 | e] eqn:E2.
  2:{ inversion G; subst. eapply run_scratch_lookup_raises; eauto. }
  destruct (hd_error (filter (is_equal_signature (adjusted_target self)) fs2))
    as [tmp |] eqn:E3.
  2:{ inversion G; subst. eapply run_scratch_lookup_empty; eauto. }
  unfold ret at 1 in G. rewrite execute_eq in G. subst c2. cbn [backend executed] in G.
  destruct (db_execute _ d2) as [d3 |] eqn:X3.
  2:{ inversion G; subst. rewrite <- app_assoc. eapply run_drop_refused; eauto. }
  rewrite <- app_assoc in G. cbn [app] in G.
  pose proof (run_compared self c live _ _ _ d1 d2 d3 tmp L S X1 X2 (eq_sym B) X3) as R.
  destruct (is_equal_definition live tmp) eqn:Q; inversion G; subst; exact R.
Qed.

End Diff.

Lemma get_db_definition_finds_match_aux :
  forall (db : Type) (D : Database db) (self : PGFunction) (c : connection db)
         (db_functions : list PGFunction),
    fst (get_db_functions (schema self) c) = Return db_functions ->
    (fst (get_db_definition self c) = Return None
     <-> forall x, In x db_functions -> is_equal_signature self x = false)
    /\ (forall m, fst (get_db_definition self c) = Return (Some m) ->
          In m db_functions /\ is_equal_signature self m = true).
Proof.
  intros db D self c fs E. rewrite get_db_definition_eq, E. simpl. split.
  - rewrite <- filter_nil_iff.
    destruct (filter _ fs); split; intro X; try reflexivity; discriminate.
  - intros m X. inversion X as [Y]. apply hd_filter_in in Y. exact Y.
Qed.

Ltac same_statements :=
  repeat match goal with
  | S1 : Spec.scratch_statements ?f = _, S2 : Spec.scratch_statements ?f = _ |- _ =>
      rewrite S1 in S2; inversion S2; subst; clear S2
  end.

(** C1: [get_required_migration_op] returns Create exactly when the lookup
    in the catalog of the schema of [self] finds no entry with its
    signature and schema; when the lookup finds [live] and the comparison
    in the scratch schema reads [tmp] back, it returns nothing exactly when
    the definitions of [live] and [tmp] are equal up to whitespace, and
    Replace exactly when they are not; it never returns Drop or Revert. *)
Theorem get_required_migration_op_decides :
  forall (db : Type) (D : Database db) (self : PGFunction) (c : connection db),
    (forall db_functions,
        fst (get_db_functions (schema self) c) = Return db_functions ->
        (fst (get_required_migration_op self c) = Return (Some CreateFunctionOp)
         <-> forall x, In x db_functions -> is_equal_signature self x = false))
    /\ (forall live s1 s2 s3 d1 d2 d3 tmp,
        fst (get_db_definition self c) = Return (Some live) ->
        Spec.scratch_statements self = [s1; s2; s3] ->
        db_execute s1 (backend c) = Some d1 ->
        db_execute s2 d1 = Some d2 ->
        fst (get_db_definition (adjusted_target self) (mkConnection d2 []))
        = Return (Some tmp) ->
        db_execute s3 d2 = Some d3 ->
        (fst (get_required_migration_op self c) = Return None
         <-> is_equal_definition live tmp = true)
        /\ (fst (get_required_migration_op self c) = Return (Some ReplaceFunctionOp)
            <-> is_equal_definition live tmp = false))
    /\ fst (get_required_migration_op self c) <> Return (Some DropFunctionOp)
    /\ fst (get_required_migration_op self c) <> Return (Some RevertFunctionOp).
Proof.
  intros db D self c.
  pose proof (get_required_migration_op_run self c) as R.
  remember (fst (get_required_migration_op self c)) as r eqn:Er.
  remember (snd (get_required_migration_op self c)) as c' eqn:Ec.
  clear Er Ec.
  split; [| split; [| split]].
  - intros fs E.
    destruct (get_db_definition_finds_match_aux _ _ self c fs E) as [N S].
    rewrite <- N.
    destruct R; split; intro X; try congruence; try reflexivity.
    destruct (is_equal_definition live tmp); discriminate.
  - intros live s1 s2 s3 d1 d2 d3 tmp L S X1 X2 T X3.
    destruct R; same_statements; try congruence.
    repeat match goal with
    | A : ?x = Some ?a, B : ?x = Some ?b |- _ =>
        assert (a = b) by congruence; subst a; clear A
    | A : ?x = Return (Some ?a), B : ?x = Return (Some ?b) |- _ =>
        assert (a = b) by congruence; subst a; clear A
    end.
    destruct (is_equal_definition live tmp); split; split; intro; congruence.
  - destruct R; try discriminate.
    destruct (is_equal_definition live tmp); discriminate.
  - destruct R; try discriminate.
    destruct (is_equal_definition live tmp); discriminate.
Qed.

(** ** Isolation of the comparison *)

(** C9, as amended: on a database where each of the three statements of
    the comparison leaves the rows of every schema other than
    [alembic_autogen] as they were, a call that returns sent either no
    statement at all (the result is Create) or exactly the three
    statements [create schema if not exists alembic_autogen;], the
    [CREATE OR REPLACE FUNCTION alembic_autogen. ...] of the desired
    function and [drop schema alembic_autogen cascade;], in this order
    (the result is nothing or Replace); and the rows of every schema other
    than [alembic_autogen], so those of the schema of [self] when it is
    another one, are the same after the call as before. *)
Theorem get_required_migration_op_isolated :
  forall (db : Type) (D : Database db) (self : PGFunction) (c c' : connection db)
         (r : option op_class),
    (forall stmt d d' s,
        In stmt (Spec.scratch_statements self) ->
        db_execute stmt d = Some d' ->
        s <> Spec.scratch ->
        Spec.snapshot s d' = Spec.snapshot s d) ->
    get_required_migration_op self c = (Return r, c') ->
    ((r = Some CreateFunctionOp /\ executed c' = executed c)
     \/ ((r = None \/ r = Some ReplaceFunctionOp)
         /\ executed c' = (executed c ++ Spec.scratch_statements self)%list))
    /\ (forall s, s <> Spec.scratch ->
          Spec.snapshot s (backend c') = Spec.snapshot s (backend c))
    /\ (schema self <> Spec.scratch ->
          Spec.snapshot (schema self) (backend c')
          = Spec.snapshot (schema self) (backend c)).
Proof.
  intros db D self c c' r Hframe G.
  pose proof (get_required_migration_op_run self c) as R.
  rewrite G in R. cbn [fst snd] in R.
  assert (((r = Some CreateFunctionOp /\ executed c' = executed c)
           \/ ((r = None \/ r = Some ReplaceFunctionOp)
               /\ executed c' = (executed c ++ Spec.scratch_statements self)%list))
          /\ (forall s, s <> Spec.scratch ->
                Spec.snapshot s (backend c') = Spec.snapshot s (backend c))) as [A B].
  { inversion R; subst.
    - split; [left; split; reflexivity | reflexivity].
    - split.
      + right. split.
        * destruct (is_equal_definition live tmp); [left | right]; congruence.
        * cbn [executed]. congruence.
      + intros s Hs. cbn [backend].
        match goal with S : Spec.scratch_statements self = _ |- _ => rename S into St end.
        rewrite (Hframe s3 d2 d3 s), (Hframe s2 d1 d2 s), (Hframe s1 (backend c) d1 s);
          try assumption; try reflexivity; rewrite St; simpl; auto. }
  split; [exact A | split; [exact B |]].
  intro Hs. apply B. exact Hs.
Qed.

(** *** [MiniPg] keeps the three statements inside the scratch schema *)

Lemma like_percent : forall s : string, MiniPg.like "%" s = true.
Proof.
  induction s as [| c s IH].
  - reflexivity.
  - simpl in *. exact IH.
Qed.

Lemma filter_all :
  forall (A : Type) (p : A -> bool) (l : list A),
    (forall x, p x = true) -> filter p l = l.
Proof.
  intros A p l Hp. induction l as [| a l IH]; simpl.
  - reflexivity.
  - rewrite Hp, IH. reflexivity.
Qed.

Lemma minipg_snapshot :
  forall (s : string) (d : MiniPg.state),
    Spec.snapshot s d
    = filter (fun r => String.eqb (function_schema r) s) (MiniPg.procs d).
Proof.
  intros s d. unfold Spec.snapshot. simpl. unfold MiniPg.select.
  rewrite (filter_all _ (fun r => MiniPg.like "%" (function_schema r))); [reflexivity |].
  intro r. apply like_percent.
Qed.

Lemma minipg_create_schema_frame :
  forall (n s : string) (d : MiniPg.state),
    Spec.snapshot s (MiniPg.create_schema n d) = Spec.snapshot s d.
Proof.
  intros n s d. rewrite !minipg_snapshot. unfold MiniPg.create_schema.
  destruct (MiniPg.has_schema n d); reflexivity.
Qed.

Lemma minipg_drop_schema_frame :
  forall (n s : string) (d : MiniPg.state),
    s <> n -> Spec.snapshot s (MiniPg.drop_schema n d) = Spec.snapshot s d.
Proof.
  intros n s d Hs. rewrite !minipg_snapshot. unfold MiniPg.drop_schema. simpl.
  induction (MiniPg.procs d) as [| r l IH]; simpl.
  - reflexivity.
  - destruct (String.eqb_spec (function_schema r) n) as [E | E]; simpl.
    + destruct (String.eqb_spec (function_schema r) s) as [E' | E'].
      * congruence.
      * exact IH.
    + destruct (String.eqb (function_schema r) s); [f_equal |]; exact IH.
Qed.

Lemma minipg_upsert_frame :
  forall (f : PGFunction) (s : string) (l : list row),
    s <> schema f ->
    filter (fun r => String.eqb (function_schema r) s) (MiniPg.upsert f l)
    = filter (fun r => String.eqb (function_schema r) s) l.
Proof.
  intros f s l Hs.
  assert (String.eqb (schema f) s = false) as N
    by (apply String.eqb_neq; congruence).
  induction l as [| r l IH]; simpl.
  - rewrite N. reflexivity.
  - unfold MiniPg.same_function at 1.
    destruct (String.eqb_spec (function_schema r) (schema f)) as [E | E]; simpl.
    + destruct (match from_sql (create_statement r) with
                | Some g => is_equal_signature f g
                | None => false
                end); simpl.
      * rewrite N, E, N. reflexivity.
      * rewrite IH. reflexivity.
    + rewrite IH. reflexivity.
Qed.

Lemma minipg_exec_create_schema :
  forall (sql rest n : string) (d : MiniPg.state),
    MiniPg.strip_prefix "create schema if not exists " sql = Some rest ->
    MiniPg.chop_suffix ";" rest = Some n ->
    MiniPg.exec sql d = Some (MiniPg.create_schema n d).
Proof.
  intros sql rest n d P S. unfold MiniPg.exec. rewrite P, S. reflexivity.
Qed.

Lemma minipg_exec_drop_schema :
  forall (sql rest n : string) (d : MiniPg.state),
    MiniPg.strip_prefix "create schema if not exists " sql = None ->
    MiniPg.strip_prefix "drop schema " sql = Some rest ->
    MiniPg.chop_suffix " cascade;" rest = Some n ->
    MiniPg.exec sql d
    = if MiniPg.has_schema n d then Some (MiniPg.drop_schema n d) else None.
Proof.
  intros sql rest n d P Q S. unfold MiniPg.exec. rewrite P, Q, S. reflexivity.
Qed.

Lemma minipg_exec_function :
  forall (sql : string) (f : PGFunction) (d : MiniPg.state),
    MiniPg.strip_prefix "create schema if not exists " sql = None ->
    MiniPg.strip_prefix "drop schema " sql = None ->
    from_sql sql = Some f ->
    MiniPg.exec sql d
    = if MiniPg.has_schema (schema f) d
      then Some (MiniPg.mkState (MiniPg.schemas d) (MiniPg.upsert f (MiniPg.procs d)))
      else None.
Proof.
  intros sql f d P Q S. unfold MiniPg.exec. rewrite P, Q, S. reflexivity.
Qed.

(** The three statements for [Examples.to_upper_changed] touch no schema
    but the scratch one. *)
Lemma minipg_scratch_frame :
  forall (stmt : string) (d d' : MiniPg.state) (s : string),
    In stmt (Spec.scratch_statements Examples.to_upper_changed) ->
    db_execute stmt d = Some d' ->
    s <> Spec.scratch ->
    Spec.snapshot s d' = Spec.snapshot s d.
Proof.
  intros stmt d d' s Hin X Hs. simpl in X.
  destruct Hin as [<- | [<- | [<- | []]]].
  - rewrite (minipg_exec_create_schema _ "alembic_autogen;" "alembic_autogen") in X
      by (vm_compute; reflexivity).
    inversion X. apply minipg_create_schema_frame.
  - rewrite (minipg_exec_function _ (adjusted_target Examples.to_upper_changed)) in X
      by (vm_compute; reflexivity).
    destruct (MiniPg.has_schema _ d); inversion X.
    rewrite !minipg_snapshot. simpl. apply minipg_upsert_frame. exact Hs.
  - rewrite (minipg_exec_drop_schema _ "alembic_autogen cascade;" "alembic_autogen") in X
      by (vm_compute; reflexivity).
    destruct (MiniPg.has_schema _ d); inversion X.
    apply minipg_drop_schema_frame. exact Hs.
Qed.

(** The comparison of [Examples.to_upper_changed] with [Examples.live_db]. *)
Lemma get_required_migration_op_isolated_witness :
  ((Some ReplaceFunctionOp = Some CreateFunctionOp
    /\ executed (snd Examples.changed_run) = executed (MiniPg.connect Examples.live_db))
   \/ ((Some ReplaceFunctionOp = None \/ Some ReplaceFunctionOp = Some ReplaceFunctionOp)
       /\ executed (snd Examples.changed_run)
          = (executed (MiniPg.connect Examples.live_db)
             ++ Spec.scratch_statements Examples.to_upper_changed)%list))
  /\ (forall s, s <> Spec.scratch ->
        Spec.snapshot s (backend (snd Examples.changed_run))
        = Spec.snapshot s (backend (MiniPg.connect Examples.live_db)))
  /\ (schema Examples.to_upper_changed <> Spec.scratch ->
        Spec.snapshot (schema Examples.to_upper_changed) (backend (snd Examples.changed_run))
        = Spec.snapshot (schema Examples.to_upper_changed)
            (backend (MiniPg.connect Examples.live_db))).
Proof.
  apply (get_required_migration_op_isolated MiniPg.state MiniPg.database
           Examples.to_upper_changed (MiniPg.connect Examples.live_db)
           (snd Examples.changed_run) (Some ReplaceFunctionOp)).
  - exact minipg_scratch_frame.
  - vm_compute. reflexivity.
Defined.

(** C9 fails when the desired function lives in the schema named
    [alembic_autogen] itself: the comparison replaces the live function and
    then drops the schema with everything in it. *)
Lemma scratch_schema_as_target :
  fst (get_required_migration_op Examples.in_scratch (MiniPg.connect Examples.scratch_db))
  = Return None
  /\ Spec.snapshot (schema Examples.in_scratch) Examples.scratch_db
     = [MiniPg.row_of Examples.in_scratch; MiniPg.row_of Examples.other_in_scratch]
  /\ Spec.snapshot (schema Examples.in_scratch)
       (backend (snd (get_required_migration_op Examples.in_scratch
                        (MiniPg.connect Examples.scratch_db))))
     = [].
Proof. vm_compute. repeat split. Qed.

(** ** Rendering *)

Ltac layout g5 :=
  exists (nl ++ "        "), (nl ++ "        "), (nl ++ "        "), (nl ++ "    "),
         g5, (nl ++ "    ");
  repeat split.

Lemma render_create_function_snippet :
  forall op : ReversibleOp,
    Spec.snippet (to_variable_name (target op)) (schema (target op))
      (signature (target op)) dq3 (definition (target op)) "create_function"
      (render_create_function op).
Proof. intro op. unfold render_create_function. layout (nl ++ nl). Qed.

Lemma render_drop_function_snippet :
  forall op : ReversibleOp,
    Spec.snippet (to_variable_name (target op)) (schema (target op))
      (signature (target op)) dq "# Not Used" "drop_function"
      (render_drop_function op).
Proof. intro op. unfold render_drop_function. layout (nl ++ nl). Qed.

Lemma render_replace_function_snippet :
  forall op : ReversibleOp,
    Spec.snippet (to_variable_name (target op)) (schema (target op))
      (signature (target op)) dq3 (definition (target op)) "replace_function"
      (render_replace_function op).
Proof. intro op. unfold render_replace_function. layout nl. Qed.

(** C2, as amended: the snippet rendered for Create and for Replace is a
    value named after the target, built from the schema, the signature and
    the definition of the target, followed by the call of
    [op.create_function], respectively [op.replace_function], on it; the
    snippet for Drop holds the schema and the signature of the target and
    the text [# Not Used] in the place of the definition, followed by the
    call of [op.drop_function]; the snippet for Revert is named after the
    target and built from the schema, the signature and the definition of
    the function found live in the database, followed by the call of
    [op.replace_function], and rendering it raises when the lookup raises
    or finds nothing. *)
Theorem render_snippet :
  forall (db : Type) (D : Database db) (op : ReversibleOp) (c : connection db),
    let t := target op in
    let var := to_variable_name t in
    match cls op with
    | CreateFunctionOp =>
        exists text, fst (render op c) = Return text
          /\ Spec.snippet var (schema t) (signature t) dq3 (definition t)
               "create_function" text
    | DropFunctionOp =>
        exists text, fst (render op c) = Return text
          /\ Spec.snippet var (schema t) (signature t) dq "# Not Used"
               "drop_function" text
    | ReplaceFunctionOp =>
        exists text, fst (render op c) = Return text
          /\ Spec.snippet var (schema t) (signature t) dq3 (definition t)
               "replace_function" text
    | RevertFunctionOp =>
        match fst (get_db_definition t c) with
        | Return (Some live) =>
            exists text, fst (render op c) = Return text
              /\ Spec.snippet var (schema live) (signature live) dq3 (definition live)
                   "replace_function" text
        | Return None => fst (render op c) = Raise AttributeError
        | Raise e => fst (render op c) = Raise e
        end
    end.
Proof.
  intros db D op c t var. unfold render.
  destruct (cls op).
  - eexists. split; [reflexivity | apply render_create_function_snippet].
  - eexists. split; [reflexivity | apply render_drop_function_snippet].
  - eexists. split; [reflexivity | apply render_replace_function_snippet].
  - unfold render_revert_function, bind. fold t.
    destruct (get_db_definition t c) as [[[live |] | e] c1]; cbn [fst].
    + eexists. split; [reflexivity |]. fold var. layout nl.
    + reflexivity.
    + reflexivity.
Qed.

(** C2 fails for Drop: the snippet does not hold the definition of the
    target. *)
Lemma render_drop_without_definition :
  fst (render (mkOp DropFunctionOp Examples.to_upper) (MiniPg.connect Examples.live_db))
  = Return
      ("public_to_upper_6fa0de2f310722780d74f243bb8daaff = PGFunction(" ++ nl
       ++ "        schema=" ++ dq ++ "public" ++ dq ++ "," ++ nl
       ++ "        signature=" ++ dq ++ "to_upper(some_text text)" ++ dq ++ "," ++ nl
       ++ "        definition=" ++ dq ++ "# Not Used" ++ dq ++ nl
       ++ "    )" ++ nl ++ nl
       ++ "op.drop_function(public_to_upper_6fa0de2f310722780d74f243bb8daaff)" ++ nl
       ++ "    ")
  /\ Str.contains (definition Examples.to_upper)
       (render_drop_function (mkOp DropFunctionOp Examples.to_upper)) = false.
Proof. vm_compute. split; reflexivity. Qed.

(** ** Strings *)

Lemma append_assoc :
  forall a b c : string, ((a ++ b) ++ c)%string = (a ++ b ++ c)%string.
Proof.
  induction a as [| x a IH]; intros b c; simpl.
  - reflexivity.
  - rewrite IH. reflexivity.
Qed.

Lemma append_empty_r : forall a : string, (a ++ EmptyString)%string = a.
Proof.
  induction a as [| x a IH]; simpl; [| rewrite IH]; reflexivity.
Qed.

Lemma length_append :
  forall a b : string,
    String.length (a ++ b) = String.length a + String.length b.
Proof.
  induction a as [| x a IH]; intros b; simpl; [| rewrite IH]; reflexivity.
Qed.

(** Two texts that end with tails of the same length agree part by part. *)
Lemma append_same_length_tail :
  forall a b h1 h2 : string,
    (a ++ h1)%string = (b ++ h2)%string ->
    String.length h1 = String.length h2 ->
    a = b /\ h1 = h2.
Proof.
  induction a as [| x a IH]; intros b h1 h2 E L.
  - destruct b as [| y b].
    + simpl in E. auto.
    + exfalso. apply (f_equal String.length) in E.
      simpl in E. rewrite length_append in E. lia.
  - destruct b as [| y b].
    + exfalso. apply (f_equal String.length) in E.
      simpl in E. rewrite length_append in E. lia.
    + simpl in E. inversion E; subst.
      destruct (IH b h1 h2) as [-> ->]; auto.
Qed.

Lemma append_inv_tail :
  forall a b t : string, (a ++ t)%string = (b ++ t)%string -> a = b.
Proof.
  intros a b t E. apply (append_same_length_tail a b t t E). reflexivity.
Qed.

Lemma lstrip_length :
  forall s : string, String.length (Str.lstrip s) <= String.length s.
Proof.
  induction s as [| c s IH]; simpl.
  - lia.
  - destruct (Char.isspace c); simpl; lia.
Qed.

Lemma rstrip_length :
  forall s : string, String.length (Str.rstrip s) <= String.length s.
Proof.
  induction s as [| c s IH]; simpl.
  - lia.
  - destruct (Str.rstrip s); [destruct (Char.isspace c) |]; simpl in *; lia.
Qed.

(** A text that [lstrip] leaves alone does not start with whitespace. *)
Lemma lstrip_fixed :
  forall (c : ascii) (s : string),
    Str.lstrip (String c s) = String c s -> Char.isspace c = false.
Proof.
  intros c s E. simpl in E. destruct (Char.isspace c); [| reflexivity].
  exfalso. apply (f_equal String.length) in E.
  pose proof (lstrip_length s). simpl in E. lia.
Qed.

(** ** The derived identifier *)

Lemma hex_length :
  forall l : list Z, String.length (MD5.hex l) = 2 * List.length l.
Proof.
  induction l as [| b l IH]; simpl.
  - reflexivity.
  - rewrite IH. lia.
Qed.

Lemma hexdigest_length :
  forall text : string, String.length (MD5.hexdigest text) = 32.
Proof.
  intro text. unfold MD5.hexdigest. rewrite hex_length.
  unfold MD5.digest. cbv zeta. rewrite !length_app.
  unfold MD5.bytes_le. rewrite !length_map. reflexivity.
Qed.

(** C4, as amended: two functions with the same schema and the same
    signature have the same identifier, whatever their definitions; for two
    functions with the same signature the identifiers are equal exactly
    when the schemas are equal once lowercased and stripped; and two equal
    identifiers end with the same MD5 digest of the lowercased,
    whitespace-normalized signature. *)
Theorem to_variable_name_stable :
  forall f g : PGFunction,
    (schema f = schema g -> signature f = signature g ->
     to_variable_name f = to_variable_name g)
    /\ (signature f = signature g ->
        (to_variable_name f = to_variable_name g
         <-> Str.strip (Str.lower (schema f)) = Str.strip (Str.lower (schema g))))
    /\ (to_variable_name f = to_variable_name g ->
        MD5.hexdigest (_normalize_whitespace (Str.lower (signature f)))
        = MD5.hexdigest (_normalize_whitespace (Str.lower (signature g)))).
Proof.
  intros f g. unfold to_variable_name. repeat split.
  - intros -> ->. reflexivity.
  - rewrite H. apply append_inv_tail.
  - intros ->. rewrite H. reflexivity.
  - intro E.
    rewrite <- !(append_assoc _ "_" _) in E.
    rewrite <- !(append_assoc _ _ (MD5.hexdigest _)) in E.
    apply append_same_length_tail in E.
    + apply E.
    + rewrite !hexdigest_length. reflexivity.
Qed.

(** C4 fails for a schema that changes only in letter case: the identifier
    stays the same. *)
Lemma to_variable_name_ignores_case :
  schema Examples.to_upper <> schema Examples.to_upper_in_Public
  /\ signature Examples.to_upper = signature Examples.to_upper_in_Public
  /\ to_variable_name Examples.to_upper = to_variable_name Examples.to_upper_in_Public.
Proof.
  split; [discriminate | split; [reflexivity | vm_compute; reflexivity]].
Qed.

(** ** Whitespace normalization *)

Lemma split_all_space :
  forall s : string, Spec.all_space s = true -> Str.split s = [].
Proof.
  unfold Str.split. induction s as [| c s IH]; simpl; intro A.
  - reflexivity.
  - apply andb_true_iff in A. destruct A as [-> A]. simpl. auto.
Qed.

Lemma split_from_word :
  forall (s w : string), w <> EmptyString -> Str.split_from w s <> [].
Proof.
  induction s as [| c s IH]; intros w Hw; simpl.
  - destruct w; [congruence | discriminate].
  - destruct (Char.isspace c).
    + destruct w; [congruence | discriminate].
    + apply IH. destruct w; discriminate.
Qed.

Lemma split_not_all_space :
  forall s : string, Spec.all_space s = false -> Str.split s <> [].
Proof.
  unfold Str.split. induction s as [| c s IH]; simpl; intro A.
  - discriminate.
  - destruct (Char.isspace c); simpl in *.
    + auto.
    + apply split_from_word. discriminate.
Qed.

Lemma rstrip_all_space :
  forall s : string, Spec.all_space s = true -> Str.rstrip s = EmptyString.
Proof.
  induction s as [| c s IH]; simpl; intro A.
  - reflexivity.
  - apply andb_true_iff in A. destruct A as [C A]. rewrite (IH A), C. reflexivity.
Qed.

Lemma rstrip_not_all_space :
  forall s : string, Spec.all_space s = false -> Str.rstrip s <> EmptyString.
Proof.
  induction s as [| c s IH]; simpl; intro A.
  - discriminate.
  - destruct (Str.rstrip s) eqn:R.
    + destruct (Char.isspace c); simpl in A.
      * exfalso. apply (IH A). reflexivity.
      * discriminate.
    + discriminate.
Qed.

Lemma lstrip_not_all_space :
  forall s : string, Spec.all_space s = false -> Str.lstrip s <> EmptyString.
Proof.
  induction s as [| c s IH]; simpl; intro A.
  - discriminate.
  - destruct (Char.isspace c); simpl in A.
    + auto.
    + discriminate.
Qed.

Lemma all_space_lstrip :
  forall s : string, Spec.all_space (Str.lstrip s) = Spec.all_space s.
Proof.
  induction s as [| c s IH]; simpl.
  - reflexivity.
  - destruct (Char.isspace c) eqn:C; simpl.
    + exact IH.
    + rewrite C. reflexivity.
Qed.

Lemma all_space_rstrip :
  forall s : string, Spec.all_space (Str.rstrip s) = Spec.all_space s.
Proof.
  induction s as [| c s IH]; simpl.
  - reflexivity.
  - destruct (Str.rstrip s) eqn:R.
    + simpl in IH. rewrite <- IH.
      destruct (Char.isspace c) eqn:C; simpl; rewrite ?C; reflexivity.
    + rewrite <- IH. simpl. reflexivity.
Qed.

(** A text that does not end in whitespace keeps what stands before it. *)
Lemma rstrip_append :
  forall a b : string,
    Str.rstrip b <> EmptyString ->
    Str.rstrip (a ++ b) = (a ++ Str.rstrip b)%string.
Proof.
  induction a as [| x a IH]; intros b Hb; simpl.
  - reflexivity.
  - rewrite (IH b Hb).
    destruct (a ++ Str.rstrip b)%string eqn:E; [| reflexivity].
    destruct a; simpl in E; [congruence | discriminate].
Qed.

Lemma rstrip_append_all_space :
  forall a t : string,
    Spec.all_space t = true -> Str.rstrip (a ++ t) = Str.rstrip a.
Proof.
  induction a as [| x a IH]; intros t Ht; simpl.
  - apply rstrip_all_space. exact Ht.
  - rewrite (IH t Ht). reflexivity.
Qed.

Lemma rstrip_word :
  forall w : string, Spec.no_char Char.isspace w = true -> Str.rstrip w = w.
Proof.
  induction w as [| c w IH]; simpl; intro N.
  - reflexivity.
  - apply andb_true_iff in N. destruct N as [C N]. rewrite (IH N).
    destruct w; [| reflexivity].
    destruct (Char.isspace c); [discriminate | reflexivity].
Qed.

Lemma lstrip_rstrip :
  forall s : string, Str.lstrip (Str.rstrip s) = Str.rstrip (Str.lstrip s).
Proof.
  induction s as [| c s IH]; simpl.
  - reflexivity.
  - destruct (Char.isspace c) eqn:C.
    + rewrite <- IH. destruct (Str.rstrip s); simpl; rewrite ?C; reflexivity.
    + simpl. destruct (Str.rstrip s); simpl; rewrite C; reflexivity.
Qed.

Lemma collapse_word :
  forall w x : string,
    Spec.no_char Char.isspace w = true ->
    Spec.collapse_ws (w ++ x) = (w ++ Spec.collapse_ws x)%string.
Proof.
  induction w as [| c w IH]; intros x N; simpl.
  - reflexivity.
  - simpl in N. apply andb_true_iff in N. destruct N as [C N].
    apply negb_true_iff in C. rewrite C, (IH x N). reflexivity.
Qed.

Lemma collapse_leading_space :
  forall (c : ascii) (x : string),
    Char.isspace c = true ->
    Str.lstrip x <> EmptyString ->
    Spec.collapse_ws (String c x) = String " " (Spec.collapse_ws (Str.lstrip x)).
Proof.
  intros c x. revert c. induction x as [| d x IH]; intros c C L.
  - simpl in L. congruence.
  - simpl in L. change (Spec.collapse_ws (String c (String d x)))
      with (if Char.isspace c
            then if Char.isspace d then Spec.collapse_ws (String d x)
                 else String " " (Spec.collapse_ws (String d x))
            else String c (Spec.collapse_ws (String d x))).
    rewrite C. simpl Str.lstrip.
    destruct (Char.isspace d) eqn:D.
    + apply IH; assumption.
    + reflexivity.
Qed.

Lemma normalize_whitespace_rec :
  forall s : string,
    (forall w, w <> EmptyString -> Spec.no_char Char.isspace w = true ->
       Str.join " " (Str.split_from w s) = Spec.collapse_ws (Str.rstrip (w ++ s)))
    /\ Str.join " " (Str.split s) = Spec.collapse_ws (Str.strip s).
Proof.
  unfold Str.strip, Str.split.
  induction s as [| c s [IH1 IH2]].
  - split.
    + intros w Hw N. simpl. rewrite append_empty_r, (rstrip_word w N).
      rewrite <- (append_empty_r w) at 2.
      rewrite (collapse_word w EmptyString N). simpl. rewrite append_empty_r.
      destruct w; [congruence | reflexivity].
    + reflexivity.
  - destruct (Char.isspace c) eqn:C.
    + split.
      * intros w Hw N. simpl. rewrite C.
        assert (Str.flush w = [w]) as -> by (destruct w; [congruence | reflexivity]).
        destruct (Spec.all_space s) eqn:A.
        -- pose proof (split_all_space s A) as E. unfold Str.split in E. rewrite E.
           simpl.
           rewrite (rstrip_append_all_space w (String c s))
             by (simpl; rewrite C, A; reflexivity).
           rewrite (rstrip_word w N).
           rewrite <- (append_empty_r w) at 2.
           rewrite (collapse_word w EmptyString N). simpl.
           rewrite append_empty_r. reflexivity.
        -- pose proof (split_not_all_space s A) as E. unfold Str.split in E.
           assert (Str.rstrip (String c s) = String c (Str.rstrip s)) as R.
           { simpl. pose proof (rstrip_not_all_space s A).
             destruct (Str.rstrip s); [congruence | reflexivity]. }
           rewrite rstrip_append by (rewrite R; discriminate).
           rewrite R, (collapse_word _ _ N).
           rewrite collapse_leading_space.
           ++ rewrite lstrip_rstrip, <- IH2.
              simpl. destruct (Str.split_from EmptyString s); [congruence |].
              reflexivity.
           ++ exact C.
           ++ rewrite lstrip_rstrip. apply rstrip_not_all_space.
              rewrite all_space_lstrip. exact A.
      * simpl. rewrite C. simpl. exact IH2.
    + assert (Spec.no_char Char.isspace (String c EmptyString) = true) as Nc
        by (simpl; rewrite C; reflexivity).
      split.
      * intros w Hw N. simpl. rewrite C.
        rewrite IH1.
        -- rewrite append_assoc. reflexivity.
        -- destruct w; discriminate.
        -- clear - N C. induction w as [| x w IH]; simpl in *.
           ++ rewrite C. reflexivity.
           ++ apply andb_true_iff in N. destruct N as [-> N]. simpl. auto.
      * simpl Str.split_from. rewrite C. simpl Str.lstrip. rewrite C.
        rewrite (IH1 (String c EmptyString)); [reflexivity | discriminate | exact Nc].
Qed.

(** [_normalize_whitespace] removes the whitespace at both ends and
    collapses every run of whitespace left. *)
Lemma normalize_whitespace_spec :
  forall s : string, _normalize_whitespace s = Spec.collapse_ws (Str.strip s).
Proof. intro s. apply normalize_whitespace_rec. Qed.

(** C7, as amended: [is_equal_definition] holds exactly when the two
    definitions are equal after the whitespace at both ends is removed and
    every maximal run of whitespace left is collapsed to one space;
    [is_equal_signature] holds exactly when the signatures are equal in
    this sense and the schemas are equal as they are. *)
Theorem comparators_normalize :
  forall a b : PGFunction,
    (is_equal_definition a b = true
     <-> Spec.collapse_ws (Str.strip (definition a))
         = Spec.collapse_ws (Str.strip (definition b)))
    /\ (is_equal_signature a b = true
        <-> Spec.collapse_ws (Str.strip (signature a))
            = Spec.collapse_ws (Str.strip (signature b))
            /\ schema a = schema b).
Proof.
  intros a b. unfold is_equal_definition, is_equal_signature. cbv zeta.
  rewrite !normalize_whitespace_spec, andb_true_iff, !String.eqb_eq.
  split; reflexivity.
Qed.

(** C7 fails on whitespace at the ends: the two definitions compare equal,
    and collapsing their runs of whitespace leaves them different. *)
Lemma is_equal_definition_strips :
  is_equal_definition Examples.to_upper_spaced Examples.to_upper = true
  /\ Spec.collapse_ws (definition Examples.to_upper_spaced)
     = "returns text as $$ select upper(some_text) $$ language sql "
  /\ Spec.collapse_ws (definition Examples.to_upper)
     = "returns text as $$ select upper(some_text) $$ language sql"
  /\ Spec.collapse_ws (definition Examples.to_upper_spaced)
     <> Spec.collapse_ws (definition Examples.to_upper).
Proof.
  split; [vm_compute; reflexivity |].
  split; [vm_compute; reflexivity |].
  split; [vm_compute; reflexivity |].
  vm_compute. discriminate.
Qed.

(** ** The matchers of the template *)

Lemma lower_dot : forall c : ascii, Char.lower c = "."%char -> c = "."%char.
Proof.
  intros [[] [] [] [] [] [] [] []]; vm_compute; intro X;
    first [reflexivity | discriminate].
Qed.

Lemma space_is_not_o :
  forall c : ascii, Char.isspace c = true -> Char.ci_eqb "o" c = false.
Proof.
  intros [[] [] [] [] [] [] [] []]; vm_compute; intro X;
    first [reflexivity | discriminate].
Qed.

Lemma lower_dot_string : forall p : string, Str.lower p = "." -> p = ".".
Proof.
  intros [| c [| d p]] E; simpl in E; try discriminate.
  injection E as E1. f_equal. apply lower_dot. exact E1.
Qed.

Section MatcherFacts.

Context {R : Type}.

Implicit Types (k : string -> option R) (g : string -> string -> option R).

Lemma lit_exact :
  forall p p' k rest,
    Str.lower p' = Str.lower p ->
    Template.lit p k (p' ++ rest) = k rest.
Proof.
  induction p as [| a p IH]; intros p' k rest E.
  - destruct p'; [reflexivity | discriminate].
  - destruct p' as [| c p']; [discriminate |].
    simpl in E. inversion E as [[E1 E2]]. simpl.
    unfold Char.ci_eqb. rewrite E1, Ascii.eqb_refl. apply IH. exact E2.
Qed.

Lemma lit_sound :
  forall p k s r,
    Template.lit p k s = Some r ->
    exists p' rest,
      s = (p' ++ rest)%string /\ Str.lower p' = Str.lower p /\ k rest = Some r.
Proof.
  induction p as [| a p IH]; intros k s r E; simpl in E.
  - exists EmptyString, s. auto.
  - destruct s as [| c s]; [discriminate |].
    destruct (Char.ci_eqb a c) eqn:C; [| discriminate].
    destruct (IH k s r E) as (p' & rest & -> & L & K).
    exists (String c p'), rest. repeat split; [| exact K].
    simpl. unfold Char.ci_eqb in C. apply Ascii.eqb_eq in C.
    rewrite L, C. reflexivity.
Qed.

Lemma lit_first_char :
  forall a p k c s,
    Char.ci_eqb a c = false -> Template.lit (String a p) k (String c s) = None.
Proof. intros. simpl. rewrite H. reflexivity. Qed.

Lemma ws_star_sound :
  forall k s r,
    Template.ws_star k s = Some r ->
    exists w rest,
      s = (w ++ rest)%string /\ Spec.all_space w = true /\ k rest = Some r.
Proof.
  intros k. induction s as [| c s IH]; intros r E.
  - exists EmptyString, EmptyString. auto.
  - simpl in E. destruct (Char.isspace c) eqn:C.
    + destruct (Template.ws_star k s) as [r' |] eqn:E'.
      * inversion E; subst.
        destruct (IH r eq_refl) as (w & rest & -> & A & K).
        exists (String c w), rest. simpl. rewrite C, A. auto.
      * exists EmptyString, (String c s). auto.
    + exists EmptyString, (String c s). auto.
Qed.

Lemma ws_star_complete :
  forall k w rest,
    Spec.all_space w = true -> k rest <> None ->
    Template.ws_star k (w ++ rest) <> None.
Proof.
  intros k. induction w as [| c w IH]; intros rest A K.
  - simpl. destruct rest as [| c s]; [exact K |].
    simpl. destruct (Char.isspace c); [| exact K].
    destruct (Template.ws_star k s); [discriminate | exact K].
  - simpl in A. apply andb_true_iff in A. destruct A as [C A].
    simpl. rewrite C.
    pose proof (IH rest A K).
    destruct (Template.ws_star k (w ++ rest)); [discriminate | congruence].
Qed.

(** A greedy run stops where the whitespace stops. *)
Lemma ws_star_exact :
  forall k w rest r,
    Spec.all_space w = true ->
    Str.lstrip rest = rest ->
    k rest = Some r ->
    Template.ws_star k (w ++ rest) = Some r.
Proof.
  intros k. induction w as [| c w IH]; intros rest r A F K.
  - simpl. destruct rest as [| c s]; [exact K |].
    apply lstrip_fixed in F. simpl. rewrite F. exact K.
  - simpl in A. apply andb_true_iff in A. destruct A as [C A].
    simpl. rewrite C, (IH rest r A F K). reflexivity.
Qed.

Lemma ws_plus_sound :
  forall k s r,
    Template.ws_plus k s = Some r ->
    exists w rest, s = (w ++ rest)%string /\ Spec.ws_run w /\ k rest = Some r.
Proof.
  intros k s r E. destruct s as [| c s]; [discriminate |].
  simpl in E. destruct (Char.isspace c) eqn:C; [| discriminate].
  destruct (ws_star_sound k s r E) as (w & rest & -> & A & K).
  exists (String c w), rest. repeat split.
  - discriminate.
  - simpl. rewrite C, A. reflexivity.
  - exact K.
Qed.

Lemma ws_plus_complete :
  forall k w rest,
    Spec.ws_run w -> k rest <> None -> Template.ws_plus k (w ++ rest) <> None.
Proof.
  intros k w rest [N A] K. destruct w as [| c w]; [congruence |].
  simpl in A. apply andb_true_iff in A. destruct A as [C A].
  simpl. rewrite C. apply ws_star_complete; assumption.
Qed.

Lemma ws_plus_exact :
  forall k w rest r,
    Spec.ws_run w ->
    Str.lstrip rest = rest ->
    k rest = Some r ->
    Template.ws_plus k (w ++ rest) = Some r.
Proof.
  intros k w rest r [N A] F K. destruct w as [| c w]; [congruence |].
  simpl in A. apply andb_true_iff in A. destruct A as [C A].
  simpl. rewrite C. apply ws_star_exact; assumption.
Qed.

Lemma lazy_star_sound :
  forall g s acc r,
    Template.lazy_star acc g s = Some r ->
    exists x rest, s = (x ++ rest)%string /\ g (acc ++ x)%string rest = Some r.
Proof.
  intros g. induction s as [| c s IH]; intros acc r E; simpl in E.
  - destruct (g acc EmptyString) eqn:K; [| discriminate].
    exists EmptyString, EmptyString. rewrite (append_empty_r acc). split; [reflexivity | congruence].
  - destruct (g acc (String c s)) eqn:K.
    + exists EmptyString, (String c s). rewrite (append_empty_r acc). split; [reflexivity | congruence].
    + destruct (IH _ r E) as (x & rest & -> & K').
      exists (String c x), rest. split; [reflexivity |].
      rewrite append_assoc in K'. exact K'.
Qed.

Lemma lazy_star_complete :
  forall g x rest acc,
    g (acc ++ x)%string rest <> None ->
    Template.lazy_star acc g (x ++ rest) <> None.
Proof.
  intros g. induction x as [| c x IH]; intros rest acc K.
  - rewrite append_empty_r in K. simpl.
    destruct rest; simpl; destruct (g acc _); congruence.
  - simpl. destruct (g acc (String c (x ++ rest))); [discriminate |].
    apply IH. rewrite append_assoc. exact K.
Qed.

(** A lazy run stops at the first place where the rest matches. *)
Lemma lazy_star_exact :
  forall g x rest acc r,
    (forall x1 x2, x = (x1 ++ x2)%string -> x2 <> EmptyString ->
       g (acc ++ x1)%string (x2 ++ rest)%string = None) ->
    g (acc ++ x)%string rest = Some r ->
    Template.lazy_star acc g (x ++ rest) = Some r.
Proof.
  intros g. induction x as [| c x IH]; intros rest acc r Hno K.
  - rewrite append_empty_r in K. simpl.
    destruct rest; simpl; rewrite K; reflexivity.
  - simpl.
    pose proof (Hno EmptyString (String c x) eq_refl) as H0.
    rewrite append_empty_r in H0. simpl in H0. rewrite H0 by discriminate.
    apply IH.
    + intros x1 x2 E N. rewrite append_assoc. simpl.
      apply (Hno (String c x1) x2); [simpl; congruence | exact N].
    + rewrite append_assoc. exact K.
Qed.

Lemma lazy_plus_sound :
  forall g s r,
    Template.lazy_plus g s = Some r ->
    exists x rest,
      s = (x ++ rest)%string /\ x <> EmptyString /\ g x rest = Some r.
Proof.
  intros g s r E. destruct s as [| c s]; [discriminate |].
  simpl in E. destruct (lazy_star_sound g s _ r E) as (x & rest & -> & K).
  exists (String c x), rest. repeat split; [discriminate | exact K].
Qed.

Lemma lazy_plus_complete :
  forall g x rest,
    x <> EmptyString -> g x rest <> None ->
    Template.lazy_plus g (x ++ rest) <> None.
Proof.
  intros g x rest N K. destruct x as [| c x]; [congruence |].
  simpl. apply lazy_star_complete. exact K.
Qed.

Lemma lazy_plus_exact :
  forall g x rest r,
    x <> EmptyString ->
    (forall x1 x2, x = (x1 ++ x2)%string -> x1 <> EmptyString -> x2 <> EmptyString ->
       g x1 (x2 ++ rest)%string = None) ->
    g x rest = Some r ->
    Template.lazy_plus g (x ++ rest) = Some r.
Proof.
  intros g x rest r N Hno K. destruct x as [| c x]; [congruence |].
  simpl. apply lazy_star_exact.
  - intros x1 x2 E N2. apply (Hno (String c x1) x2).
    + simpl. congruence.
    + discriminate.
    + exact N2.
  - exact K.
Qed.

Lemma eos_sound :
  forall (r r' : R) s, Template.eos r s = Some r' -> s = EmptyString /\ r' = r.
Proof.
  intros r r' [| c s] E; simpl in E; [inversion E; auto | discriminate].
Qed.

End MatcherFacts.

(** ** The parser *)

Ltac unmatch :=
  repeat match goal with
  | E : Template.lit _ _ _ = Some _ |- _ =>
      apply lit_sound in E; destruct E as (? & ? & ? & ? & E)
  | E : Template.ws_plus _ _ = Some _ |- _ =>
      apply ws_plus_sound in E; destruct E as (? & ? & ? & ? & E)
  | E : Template.lazy_plus _ _ = Some _ |- _ =>
      apply lazy_plus_sound in E; destruct E as (? & ? & ? & ? & E)
  | E : Template.eos _ _ = Some _ |- _ =>
      apply eos_sound in E; destruct E as (? & ?)
  end.

(** A match splits the text as the template says, and its groups are the
    parts it names. *)
Lemma parse_sound :
  forall (text : string) (res : Template.result),
    Template.parse text = Some res ->
    exists k1 w1 k2 w2 k3 w3 k4 w4 w5 k5 w6,
      text = (k1 ++ w1 ++ k2 ++ w2 ++ k3 ++ w3 ++ k4 ++ w4
              ++ Template.r_schema res ++ "." ++ Template.r_signature res
              ++ w5 ++ k5 ++ w6 ++ Template.r_definition res)%string
      /\ Spec.keyword "create" k1 /\ Spec.ws_run w1
      /\ Spec.keyword "or" k2 /\ Spec.ws_run w2
      /\ Spec.keyword "replace" k3 /\ Spec.ws_run w3
      /\ Spec.keyword "function" k4 /\ Spec.ws_run w4
      /\ Template.r_schema res <> EmptyString
      /\ Template.r_signature res <> EmptyString
      /\ Spec.ws_run w5 /\ Spec.keyword "returns" k5 /\ Spec.ws_run w6
      /\ Template.r_definition res <> EmptyString.
Proof.
  intros text res E. unfold Template.parse in E. cbv zeta in E.
  unmatch. subst.
  match goal with D : Str.lower ?p = Str.lower "." |- _ =>
    apply lower_dot_string in D; subst p end.
  rewrite append_empty_r. simpl.
  unfold Spec.ws_run in *.
  do 11 eexists. repeat split; try eassumption; try reflexivity;
    match goal with W : _ /\ _ |- _ => apply W end.
Qed.

Lemma parse_complete :
  forall text : string,
    Spec.create_or_replace_shape text -> Template.parse text <> None.
Proof.
  intros text
    (k1 & w1 & k2 & w2 & k3 & w3 & k4 & w4 & sch & sig & w5 & k5 & w6 & body
     & -> & K1 & W1 & K2 & W2 & K3 & W3 & K4 & W4 & Nsch & Nsig & W5 & K5 & W6 & Nbody).
  unfold Template.parse. cbv zeta. unfold Spec.keyword in *.
  rewrite lit_exact by exact K1. apply ws_plus_complete; [exact W1 |].
  rewrite lit_exact by exact K2. apply ws_plus_complete; [exact W2 |].
  rewrite lit_exact by exact K3. apply ws_plus_complete; [exact W3 |].
  rewrite lit_exact by exact K4. apply ws_plus_complete; [exact W4 |].
  apply lazy_plus_complete; [exact Nsch |].
  rewrite (lit_exact "." ".") by reflexivity.
  apply lazy_plus_complete; [exact Nsig |].
  apply ws_plus_complete; [exact W5 |].
  rewrite lit_exact by exact K5. apply ws_plus_complete; [exact W6 |].
  rewrite <- (append_empty_r body).
  apply lazy_plus_complete; [exact Nbody |].
  discriminate.
Qed.

Lemma lower_f_not_space :
  forall c : ascii, Char.lower c = "f"%char -> Char.isspace c = false.
Proof.
  intros [[] [] [] [] [] [] [] []]; vm_compute; intro X;
    first [reflexivity | discriminate].
Qed.

(** A whitespace run followed by a character that is not whitespace can
    only be cut inside the run or right after it. *)
Lemma cut_in_whitespace :
  forall (w1 w rest' : string) (f : ascii) (x : string),
    Spec.all_space w1 = true -> Spec.all_space w = true ->
    Char.isspace f = false ->
    (w1 ++ String f x)%string = (w ++ rest')%string ->
    exists c rest'', rest' = String c rest'' /\ (Char.isspace c = true \/ c = f).
Proof.
  induction w1 as [| a w1 IH]; intros w rest' f x A1 A F E.
  - destruct w as [| b w].
    + simpl in E. subst rest'. eauto.
    + simpl in E. inversion E; subst. simpl in A. rewrite F in A. discriminate.
  - simpl in A1. apply andb_true_iff in A1. destruct A1 as [Ca A1].
    destruct w as [| b w].
    + simpl in E. subst rest'. eauto.
    + simpl in E. inversion E; subst.
      simpl in A. apply andb_true_iff in A. destruct A as [_ A]. eauto.
Qed.

Lemma parse_create_function :
  forall text : string,
    Spec.create_function_shape text -> Template.parse text = None.
Proof.
  intros text (k1 & w1 & k4 & rest & -> & K1 & [N1 A1] & K4).
  unfold Template.parse. cbv zeta. unfold Spec.keyword in *.
  rewrite lit_exact by exact K1.
  match goal with |- Template.ws_plus ?k ?s = None =>
    destruct (Template.ws_plus k s) as [r |] eqn:E; [| reflexivity] end.
  exfalso. apply ws_plus_sound in E. destruct E as (w & rest' & E & [_ A] & L).
  destruct k4 as [| f k4]; [discriminate |].
  simpl in K4. inversion K4 as [[F K4']].
  assert (Char.isspace f = false) as Sf by (apply lower_f_not_space; exact F).
  simpl in E.
  destruct (cut_in_whitespace w1 w rest' f (k4 ++ rest) A1 A Sf E) as (c & rest'' & -> & C).
  rewrite lit_first_char in L; [discriminate |].
  destruct C as [C | ->].
  - apply space_is_not_o. exact C.
  - unfold Char.ci_eqb. rewrite F. reflexivity.
Qed.

(** C6: [from_sql] returns [None] exactly for the inputs that, stripped,
    do not have the shape [create or replace function <schema>.<signature>
    returns <body>] (keywords in any letter case, any whitespace between
    them); so in particular for a [CREATE FUNCTION] statement without
    [OR REPLACE]; it never raises; and when it returns a function, the
    stripped input has that shape with the schema and the signature of the
    function, and its definition is the text [returns ] followed by the
    rest of the input after the keyword and its whitespace. *)
Theorem from_sql_shape :
  forall sql : string,
    (from_sql sql = None <-> ~ Spec.create_or_replace_shape (Str.strip sql))
    /\ (Spec.create_function_shape (Str.strip sql) -> from_sql sql = None)
    /\ (forall f, from_sql sql = Some f ->
          exists k1 w1 k2 w2 k3 w3 k4 w4 w5 k5 w6 body,
            Str.strip sql
            = (k1 ++ w1 ++ k2 ++ w2 ++ k3 ++ w3 ++ k4 ++ w4
               ++ schema f ++ "." ++ signature f ++ w5 ++ k5 ++ w6 ++ body)%string
            /\ Spec.keyword "create" k1 /\ Spec.ws_run w1
            /\ Spec.keyword "or" k2 /\ Spec.ws_run w2
            /\ Spec.keyword "replace" k3 /\ Spec.ws_run w3
            /\ Spec.keyword "function" k4 /\ Spec.ws_run w4
            /\ schema f <> EmptyString /\ signature f <> EmptyString
            /\ Spec.ws_run w5 /\ Spec.keyword "returns" k5 /\ Spec.ws_run w6
            /\ body <> EmptyString
            /\ definition f = ("returns " ++ body)%string).
Proof.
  intro sql. unfold from_sql.
  destruct (Template.parse (Str.strip sql)) as [res |] eqn:P.
  - pose proof (parse_sound _ _ P)
      as (k1 & w1 & k2 & w2 & k3 & w3 & k4 & w4 & w5 & k5 & w6 & E & Hs).
    split; [| split].
    + split; [discriminate |]. intro N. exfalso. apply N.
      exists k1, w1, k2, w2, k3, w3, k4, w4, (Template.r_schema res),
        (Template.r_signature res), w5, k5, w6, (Template.r_definition res).
      split; [exact E | exact Hs].
    + intro C. apply parse_create_function in C. congruence.
    + intros f F. inversion F; subst f. cbn [schema signature definition].
      exists k1, w1, k2, w2, k3, w3, k4, w4, w5, k5, w6, (Template.r_definition res).
      unfold Spec.ws_run in *. decompose [and] Hs.
      repeat split; first [assumption | reflexivity].
  - split; [| split].
    + split; [| reflexivity]. intros _ S. apply parse_complete in S. congruence.
    + reflexivity.
    + discriminate.
Qed.

(** ** Printing a function and parsing it back *)

Lemma lower_keeps_space :
  forall c : ascii, Char.isspace c = true -> Char.isspace (Char.lower c) = true.
Proof.
  intros [[] [] [] [] [] [] [] []]; vm_compute; intro X;
    first [reflexivity | discriminate].
Qed.

Lemma no_space_lower :
  forall s : string,
    Spec.no_char Char.isspace (Str.lower s) = true ->
    Spec.no_char Char.isspace s = true.
Proof.
  induction s as [| c s IH]; simpl; intro N.
  - reflexivity.
  - apply andb_true_iff in N. destruct N as [C N].
    rewrite (IH N), andb_true_r.
    destruct (Char.isspace c) eqn:S; [| reflexivity].
    rewrite (lower_keeps_space c S) in C. discriminate.
Qed.

Lemma no_char_append :
  forall (p : ascii -> bool) (a : string) (c : ascii) (b : string),
    Spec.no_char p (a ++ String c b) = true -> p c = false.
Proof.
  intros p. induction a as [| x a IH]; intros c b N; simpl in N.
  - apply andb_true_iff in N. destruct N as [N _]. apply negb_true_iff. exact N.
  - apply andb_true_iff in N. destruct N as [_ N]. eauto.
Qed.

Lemma strip_fixed :
  forall s : string,
    Str.strip s = s -> Str.lstrip s = s /\ Str.rstrip s = s.
Proof.
  intros s E. unfold Str.strip in E.
  assert (Str.lstrip s = s) as L.
  { destruct s as [| c s]; [reflexivity |].
    simpl in *. destruct (Char.isspace c); [| reflexivity].
    exfalso. apply (f_equal String.length) in E.
    pose proof (rstrip_length (Str.lstrip s)). pose proof (lstrip_length s).
    simpl in E. lia. }
  rewrite L in E. auto.
Qed.

(** What stands after the first character of a text that does not end in
    whitespace does not end in whitespace either. *)
Lemma rstrip_fixed_tail :
  forall (c : ascii) (s : string),
    Str.rstrip (String c s) = String c s -> s <> EmptyString ->
    Str.rstrip s = s.
Proof.
  intros c s E N. simpl in E.
  destruct (Str.rstrip s) eqn:R.
  - destruct (Char.isspace c); inversion E; subst; congruence.
  - inversion E. reflexivity.
Qed.

Lemma rstrip_fixed_space :
  forall (c : ascii) (s : string),
    Str.rstrip (String c s) = String c s -> Char.isspace c = true ->
    s <> EmptyString.
Proof.
  intros c s E C ->. simpl in E. rewrite C in E. discriminate.
Qed.

Lemma rstrip_fixed_suffix :
  forall a b : string,
    Str.rstrip (a ++ b) = (a ++ b)%string -> b <> EmptyString -> Str.rstrip b = b.
Proof.
  induction a as [| x a IH]; intros b E N.
  - exact E.
  - apply IH; [| exact N]. simpl in E.
    apply (rstrip_fixed_tail x); [exact E |].
    destruct a; [exact N | discriminate].
Qed.

(** A run of whitespace at the head of a text is a prefix of any text
    before it that does not end in whitespace. *)
Lemma whitespace_prefix :
  forall (w x z u : string),
    Spec.all_space w = true ->
    Str.rstrip x = x -> x <> EmptyString ->
    (x ++ z)%string = (w ++ u)%string ->
    exists x', x = (w ++ x')%string /\ x' <> EmptyString
               /\ Str.rstrip x' = x' /\ (x' ++ z)%string = u.
Proof.
  induction w as [| c w IH]; intros x z u A R N E.
  - exists x. auto.
  - simpl in A. apply andb_true_iff in A. destruct A as [C A].
    destruct x as [| d x]; [congruence |].
    simpl in E. inversion E; subst d.
    pose proof (rstrip_fixed_space c x R C) as Nx.
    pose proof (rstrip_fixed_tail c x R Nx) as Rx.
    destruct (IH x z u A Rx Nx H1) as (x' & -> & N' & R' & E').
    exists x'. auto.
Qed.

(** A word at the head of a text, followed by whitespace, is a prefix of
    any text before a space that does not end in whitespace, and ends
    there or before whitespace. *)
Lemma word_prefix :
  forall (kw x z t : string) (c : ascii),
    Spec.no_char Char.isspace kw = true ->
    Str.rstrip x = x -> x <> EmptyString ->
    Char.isspace c = true ->
    (x ++ String " " z)%string = (kw ++ String c t)%string ->
    exists x', x = (kw ++ x')%string
      /\ (x' = EmptyString
          \/ exists d x'', x' = String d x'' /\ Char.isspace d = true).
Proof.
  induction kw as [| a kw IH]; intros x z t c K R N C E.
  - exists x. split; [reflexivity |]. right.
    destruct x as [| d x]; [congruence |].
    simpl in E. inversion E; subst. eauto.
  - simpl in K. apply andb_true_iff in K. destruct K as [Ka K].
    apply negb_true_iff in Ka.
    destruct x as [| d x]; [congruence |].
    simpl in E. inversion E; subst d.
    destruct x as [| e x].
    + simpl in H1. destruct kw as [| b kw].
      * exists EmptyString. auto.
      * simpl in H1. inversion H1; subst b. simpl in K.
        change (Char.isspace " ") with true in K. discriminate.
    + assert (String e x <> EmptyString) as Nx by discriminate.
      pose proof (rstrip_fixed_tail a _ R Nx) as Rx.
      destruct (IH _ z t c K Rx Nx C H1) as (x' & -> & T).
      exists x'. auto.
Qed.

Lemma has_returns_word_append :
  forall a s : string,
    Spec.has_returns_word s = true -> Spec.has_returns_word (a ++ s) = true.
Proof.
  induction a as [| x a IH]; intros s E; simpl.
  - exact E.
  - rewrite (IH s E). apply orb_true_r.
Qed.

Lemma has_returns_word_after_space :
  forall w s : string,
    Spec.ws_run w -> Spec.returns_word_at s = true ->
    Spec.has_returns_word (w ++ s) = true.
Proof.
  induction w as [| c w IH]; intros s [N A] E.
  - congruence.
  - simpl in A. apply andb_true_iff in A. destruct A as [C A].
    simpl. rewrite C. destruct w as [| d w].
    + simpl. rewrite E. reflexivity.
    + rewrite IH; [apply orb_true_r | split; [discriminate | exact A] | exact E].
Qed.

(** The signature is not cut short: no word [returns] follows a proper
    prefix of it. *)
Lemma signature_not_cut :
  forall (R : Type) (k : string -> option R) (sig x1 x2 body : string),
    Str.rstrip sig = sig ->
    Spec.has_returns_word sig = false ->
    sig = (x1 ++ x2)%string -> x2 <> EmptyString ->
    Template.ws_plus (Template.lit "returns" (Template.ws_plus k))
      (x2 ++ " " ++ "returns" ++ " " ++ body) = None.
Proof.
  intros R k sig x1 x2 body Rs Hw E N.
  match goal with |- ?m = None => destruct m as [r |] eqn:M; [| reflexivity] end.
  exfalso.
  apply ws_plus_sound in M. destruct M as (w & rest1 & E1 & W & M).
  apply lit_sound in M. destruct M as (kw & rest2 & -> & K & M).
  apply ws_plus_sound in M. destruct M as (w2 & rest3 & -> & [N2 A2] & _).
  subst sig.
  pose proof (rstrip_fixed_suffix x1 x2 Rs N) as R2.
  destruct W as [Nw Aw].
  destruct (whitespace_prefix w x2 _ _ Aw R2 N E1) as (x' & -> & N' & R' & E').
  destruct w2 as [| c w2]; [congruence |].
  simpl in A2. apply andb_true_iff in A2. destruct A2 as [C _].
  assert (Spec.no_char Char.isspace kw = true) as Kn
    by (apply no_space_lower; rewrite K; reflexivity).
  simpl in E'.
  destruct (word_prefix kw x' _ _ c Kn R' N' C E') as (x3 & -> & T).
  assert (Spec.returns_word_at (kw ++ x3) = true) as Rw.
  { unfold Spec.returns_word_at. rewrite lit_exact by exact K.
    destruct T as [-> | (d & x'' & -> & D)]; [reflexivity | exact D]. }
  rewrite has_returns_word_append in Hw; [discriminate |].
  apply has_returns_word_after_space; [split; assumption | exact Rw].
Qed.

Lemma dot_is_not :
  forall c : ascii, Ascii.eqb c "." = false -> Char.ci_eqb "." c = false.
Proof.
  intros c N. unfold Char.ci_eqb.
  destruct (Ascii.eqb (Char.lower ".") (Char.lower c)) eqn:E; [| reflexivity].
  apply Ascii.eqb_eq in E. symmetry in E.
  change (Char.lower ".") with "."%char in E.
  apply lower_dot in E. subst c. discriminate.
Qed.

(** The statement printed for a function is read back field by field. *)
Lemma parse_printed :
  forall sch sig body : string,
    sch <> EmptyString ->
    Spec.no_char (fun c => Char.isspace c || Ascii.eqb c ".") sch = true ->
    sig <> EmptyString ->
    Str.rstrip sig = sig ->
    Spec.has_returns_word sig = false ->
    body <> EmptyString ->
    Str.lstrip body = body ->
    Template.parse
      ("CREATE" ++ " " ++ "OR" ++ " " ++ "REPLACE" ++ " " ++ "FUNCTION" ++ " "
       ++ sch ++ "." ++ sig ++ " " ++ "returns" ++ " " ++ body)
    = Some (Template.mkResult sch sig body).
Proof.
  intros sch sig body Nsch Csch Nsig Rsig Wsig Nbody Lbody.
  assert (Spec.ws_run " ") as W by (split; [discriminate | reflexivity]).
  unfold Template.parse. cbv zeta.
  rewrite (lit_exact "create" "CREATE") by reflexivity.
  apply ws_plus_exact; [exact W | reflexivity |].
  rewrite (lit_exact "or" "OR") by reflexivity.
  apply ws_plus_exact; [exact W | reflexivity |].
  rewrite (lit_exact "replace" "REPLACE") by reflexivity.
  apply ws_plus_exact; [exact W | reflexivity |].
  rewrite (lit_exact "function" "FUNCTION") by reflexivity.
  apply ws_plus_exact; [exact W | |].
  { destruct sch as [| c sch]; [congruence |]. simpl in *.
    apply andb_true_iff in Csch. destruct Csch as [C _].
    apply negb_true_iff, orb_false_iff in C. destruct C as [-> _]. reflexivity. }
  apply lazy_plus_exact; [exact Nsch | |].
  { intros x1 x2 E N1 N2. destruct x2 as [| c x2]; [congruence |].
    subst sch. apply no_char_append in Csch.
    apply orb_false_iff in Csch. destruct Csch as [_ D].
    simpl. rewrite (dot_is_not c D). reflexivity. }
  rewrite (lit_exact "." ".") by reflexivity.
  apply lazy_plus_exact; [exact Nsig | |].
  { intros x1 x2 E N1 N2. apply (signature_not_cut _ _ sig x1 x2); assumption. }
  apply ws_plus_exact; [exact W | reflexivity |].
  rewrite (lit_exact "returns" "returns") by reflexivity.
  apply ws_plus_exact; [exact W | exact Lbody |].
  rewrite <- (append_empty_r body) at 1.
  apply lazy_plus_exact; [exact Nbody | | reflexivity].
  intros x1 x2 E N1 N2. destruct x2; [congruence | reflexivity].
Qed.

(** C10, as amended: for a function whose schema is not empty and holds
    neither a dot nor whitespace, whose signature is not empty, does not
    end in whitespace and does not hold, after a whitespace character, the
    word [returns] in any letter case followed by whitespace or by the end
    of the signature, and whose definition is [returns ] followed by a text
    that is not empty and neither starts nor ends with whitespace,
    [from_sql] of [to_sql_statement_create_or_replace] gives the function
    back. *)
Theorem from_sql_of_create_or_replace :
  forall (f : PGFunction) (body : string),
    schema f <> EmptyString ->
    Spec.no_char (fun c => Char.isspace c || Ascii.eqb c ".") (schema f) = true ->
    signature f <> EmptyString ->
    Str.rstrip (signature f) = signature f ->
    Spec.has_returns_word (signature f) = false ->
    definition f = ("returns " ++ body)%string ->
    body <> EmptyString ->
    Str.strip body = body ->
    from_sql (to_sql_statement_create_or_replace f) = Some f.
Proof.
  intros [sch sig def] body Nsch Csch Nsig Rsig Wsig Edef Nbody Sbody.
  cbn [schema signature definition] in *. subst def.
  destruct (strip_fixed body Sbody) as [Lbody Rbody].
  unfold from_sql, to_sql_statement_create_or_replace.
  cbn [schema signature definition].
  assert (Str.strip ("CREATE OR REPLACE FUNCTION " ++ sch ++ "." ++ sig ++ " "
                     ++ "returns " ++ body)
          = ("CREATE" ++ " " ++ "OR" ++ " " ++ "REPLACE" ++ " " ++ "FUNCTION" ++ " "
             ++ sch ++ "." ++ sig ++ " " ++ "returns" ++ " " ++ body)%string) as ->.
  { unfold Str.strip.
    change (Str.lstrip ("CREATE OR REPLACE FUNCTION " ++ sch ++ "." ++ sig ++ " "
                        ++ "returns " ++ body))
      with ("CREATE OR REPLACE FUNCTION " ++ sch ++ "." ++ sig ++ " " ++ "returns "
            ++ body)%string.
    replace ("CREATE OR REPLACE FUNCTION " ++ sch ++ "." ++ sig ++ " " ++ "returns "
             ++ body)%string
      with (("CREATE OR REPLACE FUNCTION " ++ sch ++ "." ++ sig ++ " returns ")
            ++ body)%string
      by (rewrite !append_assoc; reflexivity).
    rewrite rstrip_append by (rewrite Rbody; exact Nbody).
    rewrite Rbody, !append_assoc. reflexivity. }
  rewrite parse_printed by assumption.
  reflexivity.
Qed.

(** The round trip of [Examples.to_upper]. *)
Lemma from_sql_of_create_or_replace_witness :
  from_sql (to_sql_statement_create_or_replace Examples.to_upper)
  = Some Examples.to_upper.
Proof.
  apply (from_sql_of_create_or_replace Examples.to_upper
           "text as $$ select upper(some_text) $$ language sql").
  - discriminate.
  - vm_compute. reflexivity.
  - discriminate.
  - vm_compute. reflexivity.
  - vm_compute. reflexivity.
  - reflexivity.
  - discriminate.
  - vm_compute. reflexivity.
Defined.

(** C10 fails on a definition that ends in whitespace: the statement is
    stripped before it is parsed, and the whitespace is lost. *)
Lemma from_sql_drops_trailing_whitespace :
  schema Examples.with_newline = "public"
  /\ signature Examples.with_newline = "to_upper(some_text text)"
  /\ ~ In "returns" (Str.split (signature Examples.with_newline))
  /\ definition Examples.with_newline
     = ("returns " ++ "text as $$ select upper(some_text) $$ language sql" ++ nl)%string
  /\ from_sql (to_sql_statement_create_or_replace Examples.with_newline)
     = Some Examples.to_upper
  /\ definition Examples.to_upper <> definition Examples.with_newline.
Proof.
  split; [reflexivity |]. split; [reflexivity |]. split.
  { vm_compute. intros [X | [X | []]]; discriminate. }
  split; [reflexivity |]. split; [vm_compute; reflexivity |].
  discriminate.
Qed.

(** * Further properties *)

(** ** Words and whitespace *)

Lemma no_space_snoc :
  forall (w : string) (c : ascii),
    Spec.no_char Char.isspace w = true -> Char.isspace c = false ->
    Spec.no_char Char.isspace (w ++ String c EmptyString) = true.
Proof.
  induction w as [| x w IH]; intros c N C; simpl in *.
  - rewrite C. reflexivity.
  - apply andb_true_iff in N. destruct N as [-> N]. simpl. auto.
Qed.

Lemma split_from_words :
  forall s w : string,
    Spec.no_char Char.isspace w = true ->
    Forall Spec.word (Str.split_from w s).
Proof.
  induction s as [| c s IH]; intros w N; simpl.
  - destruct w; constructor; [split; [discriminate | exact N] | constructor].
  - destruct (Char.isspace c) eqn:C.
    + apply Forall_app. split.
      * destruct w; constructor; [split; [discriminate | exact N] | constructor].
      * apply IH. reflexivity.
    + apply IH. apply no_space_snoc; assumption.
Qed.

(** Reading a word moves it whole into the word being read. *)
Lemma split_from_over_word :
  forall x w rest : string,
    Spec.no_char Char.isspace x = true ->
    Str.split_from w (x ++ rest) = Str.split_from (w ++ x) rest.
Proof.
  induction x as [| c x IH]; intros w rest N; simpl.
  - rewrite append_empty_r. reflexivity.
  - simpl in N. apply andb_true_iff in N. destruct N as [C N].
    apply negb_true_iff in C. rewrite C, (IH _ rest N), append_assoc. reflexivity.
Qed.

(** Reading a run of whitespace ends the word being read. *)
Lemma split_from_over_whitespace :
  forall w acc rest : string,
    Spec.ws_run w ->
    Str.split_from acc (w ++ rest) = (Str.flush acc ++ Str.split rest)%list.
Proof.
  unfold Str.split.
  induction w as [| c w IH]; intros acc rest [N A].
  - congruence.
  - simpl in A. apply andb_true_iff in A. destruct A as [C A].
    simpl. rewrite C. f_equal.
    destruct w as [| d w]; [reflexivity |].
    rewrite IH; [reflexivity | split; [discriminate | exact A]].
Qed.

Lemma split_join_words :
  forall l : list string,
    Forall Spec.word l -> Str.split (Str.join " " l) = l.
Proof.
  unfold Str.split, Str.join.
  induction l as [| x l IH]; intro W.
  - reflexivity.
  - inversion W as [| ? ? [Nx Sx] Wl]; subst.
    destruct l as [| y l].
    + simpl. rewrite <- (append_empty_r x) at 1.
      rewrite split_from_over_word by exact Sx. simpl.
      destruct x; [congruence | reflexivity].
    + change (String.concat " " (x :: y :: l))
        with (x ++ " " ++ String.concat " " (y :: l))%string.
      rewrite split_from_over_word by exact Sx.
      rewrite (split_from_over_whitespace " ")
        by (split; [discriminate | reflexivity]).
      unfold Str.split. simpl append at 1. rewrite (IH Wl).
      destruct x; [congruence | reflexivity].
Qed.

(** X1: normalizing a text that is already normalized changes nothing. *)
Theorem normalize_whitespace_idempotent :
  forall text : string,
    _normalize_whitespace (_normalize_whitespace text) = _normalize_whitespace text.
Proof.
  intro text. unfold _normalize_whitespace.
  rewrite split_join_words; [reflexivity |].
  apply split_from_words. reflexivity.
Qed.

Lemma split_from_any_whitespace :
  forall a acc w b : string,
    Spec.ws_run w ->
    Str.split_from acc (a ++ w ++ b) = Str.split_from acc (a ++ " " ++ b).
Proof.
  induction a as [| c a IH]; intros acc w b W.
  - simpl append at 1. rewrite split_from_over_whitespace by exact W.
    simpl. reflexivity.
  - simpl. destruct (Char.isspace c); rewrite (IH _ w b W); reflexivity.
Qed.

(** X2: the comparison does not see how long a run of whitespace is nor
    which whitespace characters it is made of: two definitions that differ
    in one run compare equal, whatever stands around it. *)
Theorem is_equal_definition_layout :
  forall (f g : PGFunction) (a b w1 w2 : string),
    Spec.ws_run w1 -> Spec.ws_run w2 ->
    definition f = (a ++ w1 ++ b)%string ->
    definition g = (a ++ w2 ++ b)%string ->
    _normalize_whitespace (definition f) = _normalize_whitespace (definition g)
    /\ is_equal_definition f g = true.
Proof.
  intros f g a b w1 w2 W1 W2 Ef Eg.
  assert (_normalize_whitespace (definition f) = _normalize_whitespace (definition g)) as E.
  { rewrite Ef, Eg. unfold _normalize_whitespace, Str.split.
    rewrite (split_from_any_whitespace a _ w1 b W1).
    rewrite (split_from_any_whitespace a _ w2 b W2). reflexivity. }
  split; [exact E |].
  unfold is_equal_definition. cbv zeta. rewrite E. apply String.eqb_refl.
Qed.

(** The definitions of [Examples.to_upper_spaced] and [Examples.to_upper]
    but for the newline at the end of the first. *)
Lemma is_equal_definition_layout_witness :
  _normalize_whitespace ("returns text as" ++ nl ++ "  $$ select upper(some_text) $$")
  = _normalize_whitespace "returns text as $$ select upper(some_text) $$"
  /\ is_equal_definition
       (mkPGFunction "public" "f()"
          ("returns text as" ++ nl ++ "  $$ select upper(some_text) $$"))
       (mkPGFunction "public" "f()" "returns text as $$ select upper(some_text) $$")
     = true.
Proof.
  apply (is_equal_definition_layout
           (mkPGFunction "public" "f()"
              ("returns text as" ++ nl ++ "  $$ select upper(some_text) $$"))
           (mkPGFunction "public" "f()" "returns text as $$ select upper(some_text) $$")
           "returns text as" "$$ select upper(some_text) $$" (nl ++ "  ") " ").
  - split; [discriminate | reflexivity].
  - split; [discriminate | reflexivity].
  - reflexivity.
  - reflexivity.
Defined.

Lemma without_space_append :
  forall a b : string,
    Spec.without_space (a ++ b)
    = (Spec.without_space a ++ Spec.without_space b)%string.
Proof.
  induction a as [| c a IH]; intro b; simpl.
  - reflexivity.
  - destruct (Char.isspace c); rewrite IH; reflexivity.
Qed.

Lemma without_space_join :
  forall l : list string,
    Spec.without_space (Str.join " " l)
    = String.concat EmptyString (map Spec.without_space l).
Proof.
  unfold Str.join. induction l as [| x [| y l] IH].
  - reflexivity.
  - reflexivity.
  - change (String.concat " " (x :: y :: l))
      with (x ++ " " ++ String.concat " " (y :: l))%string.
    rewrite !without_space_append, IH. reflexivity.
Qed.

Lemma concat_empty_app :
  forall l1 l2 : list string,
    String.concat EmptyString (l1 ++ l2)
    = (String.concat EmptyString l1 ++ String.concat EmptyString l2)%string.
Proof.
  induction l1 as [| x [| y l1] IH]; intro l2.
  - reflexivity.
  - simpl. destruct l2; [rewrite append_empty_r |]; reflexivity.
  - change (String.concat EmptyString ((x :: y :: l1) ++ l2))
      with (x ++ String.concat EmptyString ((y :: l1) ++ l2))%string.
    rewrite IH, <- append_assoc. reflexivity.
Qed.

Lemma without_space_split :
  forall s w : string,
    String.concat EmptyString (map Spec.without_space (Str.split_from w s))
    = (Spec.without_space w ++ Spec.without_space s)%string.
Proof.
  induction s as [| c s IH]; intro w; simpl.
  - destruct w; simpl; rewrite ?append_empty_r; reflexivity.
  - destruct (Char.isspace c) eqn:C.
    + rewrite map_app, concat_empty_app, IH. simpl.
      destruct w; simpl; rewrite ?append_empty_r; reflexivity.
    + rewrite IH, without_space_append. simpl. rewrite C, append_assoc. reflexivity.
Qed.

Lemma without_space_normalize :
  forall s : string,
    Spec.without_space (_normalize_whitespace s) = Spec.without_space s.
Proof.
  intro s. unfold _normalize_whitespace, Str.split.
  rewrite without_space_join, without_space_split. reflexivity.
Qed.

(** X3: the comparison sees every character that is not whitespace: two
    definitions that compare equal are the same text once the whitespace
    is taken out, so definitions that differ in such a character never
    compare equal. *)
Theorem is_equal_definition_keeps_text :
  forall f g : PGFunction,
    is_equal_definition f g = true ->
    Spec.without_space (definition f) = Spec.without_space (definition g).
Proof.
  intros f g E. unfold is_equal_definition in E. cbv zeta in E.
  apply String.eqb_eq in E.
  rewrite <- (without_space_normalize (definition f)), E.
  apply without_space_normalize.
Qed.

(** The two layouts of [Examples]. *)
Lemma is_equal_definition_keeps_text_witness :
  Spec.without_space (definition Examples.to_upper_spaced)
  = Spec.without_space (definition Examples.to_upper).
Proof.
  apply (is_equal_definition_keeps_text Examples.to_upper_spaced Examples.to_upper).
  vm_compute. reflexivity.
Defined.

(** ** Letter case in the identifier *)

Lemma char_lower_idempotent :
  forall c : ascii, Char.lower (Char.lower c) = Char.lower c.
Proof. intros [[] [] [] [] [] [] [] []]; vm_compute; reflexivity. Qed.

Lemma char_isspace_lower :
  forall c : ascii, Char.isspace (Char.lower c) = Char.isspace c.
Proof. intros [[] [] [] [] [] [] [] []]; vm_compute; reflexivity. Qed.

Lemma char_paren_lower :
  forall c : ascii, Ascii.eqb (Char.lower c) "(" = Ascii.eqb c "(".
Proof. intros [[] [] [] [] [] [] [] []]; vm_compute; reflexivity. Qed.

Lemma lower_lstrip :
  forall s : string, Str.lstrip (Str.lower s) = Str.lower (Str.lstrip s).
Proof.
  induction s as [| c s IH]; simpl.
  - reflexivity.
  - rewrite char_isspace_lower. destruct (Char.isspace c); [exact IH | reflexivity].
Qed.

Lemma lower_rstrip :
  forall s : string, Str.rstrip (Str.lower s) = Str.lower (Str.rstrip s).
Proof.
  induction s as [| c s IH]; simpl.
  - reflexivity.
  - rewrite IH, char_isspace_lower.
    destruct (Str.rstrip s); simpl; [destruct (Char.isspace c) |]; reflexivity.
Qed.

Lemma lower_strip :
  forall s : string, Str.strip (Str.lower s) = Str.lower (Str.strip s).
Proof.
  intro s. unfold Str.strip. rewrite lower_lstrip, lower_rstrip. reflexivity.
Qed.

Lemma lower_before_paren :
  forall s : string, Str.before "(" (Str.lower s) = Str.lower (Str.before "(" s).
Proof.
  induction s as [| c s IH]; simpl.
  - reflexivity.
  - rewrite char_paren_lower. destruct (Ascii.eqb c "("); simpl; [| rewrite IH]; reflexivity.
Qed.

(** X4: the identifier does not see letter case: two functions whose
    schemas are equal once lowercased, and whose signatures are, have the
    same identifier. *)
Theorem to_variable_name_case :
  forall f g : PGFunction,
    Str.lower (schema f) = Str.lower (schema g) ->
    Str.lower (signature f) = Str.lower (signature g) ->
    to_variable_name f = to_variable_name g.
Proof.
  intros f g Es Eg. unfold to_variable_name. cbv zeta.
  rewrite Es, Eg. f_equal. f_equal. f_equal.
  rewrite <- !lower_strip, <- !lower_before_paren, Eg. reflexivity.
Qed.

(** [Examples.to_upper] in the schemas [public] and [Public]. *)
Lemma to_variable_name_case_witness :
  to_variable_name Examples.to_upper_in_Public = to_variable_name Examples.to_upper.
Proof.
  apply (to_variable_name_case Examples.to_upper_in_Public Examples.to_upper);
    reflexivity.
Defined.

(** ** Statements that are not read back *)

Lemma lstrip_over_whitespace :
  forall w s : string,
    Spec.all_space w = true -> Str.lstrip (w ++ s) = Str.lstrip s.
Proof.
  induction w as [| c w IH]; intros s A; simpl.
  - reflexivity.
  - simpl in A. apply andb_true_iff in A. destruct A as [-> A]. auto.
Qed.

Lemma strip_over_whitespace :
  forall w1 s w2 : string,
    Spec.all_space w1 = true -> Spec.all_space w2 = true ->
    Str.strip (w1 ++ s ++ w2) = Str.strip s.
Proof.
  intros w1 s w2 A1 A2. unfold Str.strip.
  rewrite lstrip_over_whitespace by exact A1.
  rewrite <- !lstrip_rstrip, rstrip_append_all_space by exact A2. reflexivity.
Qed.

(** X5: whitespace before and after the statement does not count:
    [from_sql] gives the same result with it as without it, and so does
    [from_path] for a file that holds the statement between blank lines. *)
Theorem from_sql_surrounding_whitespace :
  forall sql w1 w2 : string,
    Spec.all_space w1 = true -> Spec.all_space w2 = true ->
    from_sql (w1 ++ sql ++ w2) = from_sql sql
    /\ (forall files path,
          files path = Some (w1 ++ sql ++ w2)%string ->
          from_path files path = Some (from_sql sql)).
Proof.
  intros sql w1 w2 A1 A2.
  assert (from_sql (w1 ++ sql ++ w2) = from_sql sql) as E
    by (unfold from_sql; rewrite strip_over_whitespace by assumption; reflexivity).
  split; [exact E |].
  intros files path F. unfold from_path. rewrite F, E. reflexivity.
Qed.

(** The statement of [Examples.to_upper] between newlines. *)
Lemma from_sql_surrounding_whitespace_witness :
  from_sql (nl ++ to_sql_statement_create_or_replace Examples.to_upper ++ nl ++ nl)
  = from_sql (to_sql_statement_create_or_replace Examples.to_upper)
  /\ (forall files path,
        files path
        = Some (nl ++ to_sql_statement_create_or_replace Examples.to_upper ++ nl ++ nl)%string ->
        from_path files path
        = Some (from_sql (to_sql_statement_create_or_replace Examples.to_upper))).
Proof.
  apply (from_sql_surrounding_whitespace
           (to_sql_statement_create_or_replace Examples.to_upper) nl (nl ++ nl));
    reflexivity.
Defined.

Lemma all_space_with_dot :
  forall a b : string, Spec.all_space (a ++ String "." b) = false.
Proof.
  induction a as [| c a IH]; intro b; simpl.
  - reflexivity.
  - rewrite IH. apply andb_false_r.
Qed.

(** X6: [from_sql] reads neither the statement of
    [to_sql_statement_create] nor that of [to_sql_statement_drop], for any
    function: of the three statements the module prints, only the
    create-or-replace one can be parsed back. *)
Theorem from_sql_of_create_and_drop :
  forall f : PGFunction,
    from_sql (to_sql_statement_create f) = None
    /\ from_sql (to_sql_statement_drop f) = None.
Proof.
  intro f. split.
  - unfold from_sql. rewrite parse_create_function; [reflexivity |].
    unfold to_sql_statement_create, Str.strip.
    change (Str.lstrip ("CREATE FUNCTION " ++ schema f ++ "." ++ signature f ++ " "
                        ++ definition f))
      with ("CREATE FUNCTION " ++ (schema f ++ "." ++ signature f ++ " "
                                   ++ definition f))%string.
    rewrite rstrip_append.
    + exists "CREATE", " ", "FUNCTION",
             (" " ++ Str.rstrip (schema f ++ "." ++ signature f ++ " " ++ definition f))%string.
      repeat split. discriminate.
    + apply rstrip_not_all_space. apply all_space_with_dot.
  - unfold from_sql, to_sql_statement_drop, Str.strip.
    change (Str.lstrip ("DROP FUNCTION " ++ schema f ++ "." ++ signature f))
      with (String "D" ("ROP FUNCTION " ++ schema f ++ "." ++ signature f)).
    simpl Str.rstrip.
    destruct (Str.rstrip _); reflexivity.
Qed.

(** ** What a parsed definition looks like *)

Lemma rstrip_idempotent :
  forall s : string, Str.rstrip (Str.rstrip s) = Str.rstrip s.
Proof.
  induction s as [| c s IH]; simpl.
  - reflexivity.
  - destruct (Str.rstrip s) as [| d r] eqn:R.
    + destruct (Char.isspace c) eqn:C; simpl; rewrite ?C; reflexivity.
    + change (Str.rstrip (String c (String d r)))
        with (match Str.rstrip (String d r) with
              | EmptyString => if Char.isspace c then EmptyString else String c EmptyString
              | String a r0 => String c (String a r0)
              end).
      rewrite IH. reflexivity.
Qed.

Section Greedy.

Context {R : Type}.

Implicit Types (k : string -> option R).

Lemma ws_star_none :
  forall k s, Template.ws_star k s = None -> k s = None.
Proof.
  intros k [| c s] E; simpl in E; [exact E |].
  destruct (Char.isspace c); [| exact E].
  destruct (Template.ws_star k s); [discriminate | exact E].
Qed.

(** A greedy run gives whitespace back only when the rest does not match
    after more of it. *)
Lemma ws_star_sound_greedy :
  forall k s r,
    Template.ws_star k s = Some r ->
    exists w rest,
      s = (w ++ rest)%string /\ Spec.all_space w = true /\ k rest = Some r
      /\ (forall c rest', rest = String c rest' -> Char.isspace c = true ->
            k rest' = None).
Proof.
  intros k. induction s as [| c s IH]; intros r E.
  - exists EmptyString, EmptyString. repeat split; [exact E | discriminate].
  - simpl in E. destruct (Char.isspace c) eqn:C.
    + destruct (Template.ws_star k s) as [r' |] eqn:E'.
      * inversion E; subst.
        destruct (IH r eq_refl) as (w & rest & -> & A & K & G).
        exists (String c w), rest. simpl. rewrite C, A. auto.
      * exists EmptyString, (String c s). repeat split; [exact E |].
        intros c' rest' X _. inversion X; subst. apply ws_star_none. exact E'.
    + exists EmptyString, (String c s). repeat split; [exact E |].
      intros c' rest' X S. inversion X; subst. congruence.
Qed.

Lemma ws_plus_sound_greedy :
  forall k s r,
    Template.ws_plus k s = Some r ->
    exists w rest,
      s = (w ++ rest)%string /\ Spec.ws_run w /\ k rest = Some r
      /\ (forall c rest', rest = String c rest' -> Char.isspace c = true ->
            k rest' = None).
Proof.
  intros k s r E. destruct s as [| c s]; [discriminate |].
  simpl in E. destruct (Char.isspace c) eqn:C; [| discriminate].
  destruct (ws_star_sound_greedy k s r E) as (w & rest & -> & A & K & G).
  exists (String c w), rest. repeat split.
  - discriminate.
  - simpl. rewrite C, A. reflexivity.
  - exact K.
  - exact G.
Qed.

End Greedy.

Ltac unmatch_greedy :=
  repeat match goal with
  | E : Template.lit _ _ _ = Some _ |- _ =>
      apply lit_sound in E; destruct E as (? & ? & ? & ? & E)
  | E : Template.ws_plus _ _ = Some _ |- _ =>
      apply ws_plus_sound_greedy in E; destruct E as (? & ? & ? & ? & E & ?)
  | E : Template.lazy_plus _ _ = Some _ |- _ =>
      apply lazy_plus_sound in E; destruct E as (? & ? & ? & ? & E)
  | E : Template.eos _ _ = Some _ |- _ =>
      apply eos_sound in E; destruct E as (? & ?)
  end.

Lemma parse_definition_stripped :
  forall (text : string) (res : Template.result),
    Template.parse text = Some res ->
    Str.rstrip text = text ->
    Template.r_definition res <> EmptyString
    /\ Str.strip (Template.r_definition res) = Template.r_definition res.
Proof.
  intros text res E Rt. unfold Template.parse in E. cbv zeta in E.
  unmatch_greedy. subst. cbn [Template.r_definition].
  match goal with N : ?b <> EmptyString,
                  G : forall c rest', (?b ++ EmptyString)%string = String c rest' -> _ |- _ =>
    rename b into body; rename G into Greedy; rename N into Nbody end.
  rewrite append_empty_r in *.
  assert (Str.rstrip body = body) as Rb.
  { rewrite <- !append_assoc in Rt.
    apply rstrip_fixed_suffix in Rt; assumption. }
  split; [exact Nbody |].
  unfold Str.strip.
  destruct body as [| c rest']; [congruence |].
  destruct (Char.isspace c) eqn:C.
  - exfalso.
    destruct rest' as [| d rest'].
    + simpl in Rb. rewrite C in Rb. discriminate.
    + pose proof (Greedy c (String d rest') eq_refl C) as G.
      rewrite <- (append_empty_r (String d rest')) in G.
      apply lazy_plus_complete in G; [exact G | discriminate | discriminate].
  - simpl Str.lstrip. rewrite C. exact Rb.
Qed.

(** X7: the definition of a function that [from_sql] returns is
    [returns ] followed by a text that is not empty and that neither starts
    nor ends with whitespace: however much whitespace follows the keyword
    in the statement, exactly one space follows it in the definition. *)
Theorem from_sql_definition_stripped :
  forall (sql : string) (f : PGFunction),
    from_sql sql = Some f ->
    exists body,
      definition f = ("returns " ++ body)%string
      /\ body <> EmptyString /\ Str.strip body = body.
Proof.
  intros sql f E. unfold from_sql in E.
  destruct (Template.parse (Str.strip sql)) as [res |] eqn:P; [| discriminate].
  inversion E; subst f. cbn [definition].
  exists (Template.r_definition res). split; [reflexivity |].
  apply (parse_definition_stripped _ _ P).
  unfold Str.strip. apply rstrip_idempotent.
Qed.

(** A statement with newlines after the keyword and at its end. *)
Lemma from_sql_definition_stripped_witness :
  exists body,
    definition Examples.to_upper = ("returns " ++ body)%string
    /\ body <> EmptyString /\ Str.strip body = body.
Proof.
  apply (from_sql_definition_stripped
           ("create or replace function public.to_upper(some_text text) returns"
            ++ nl ++ "  text as $$ select upper(some_text) $$ language sql" ++ nl)
           Examples.to_upper).
  vm_compute. reflexivity.
Defined.

(** ** More on the lookup *)

Lemma filter_first :
  forall (A : Type) (p : A -> bool) (pre : list A) (m : A) (post : list A),
    (forall x, In x pre -> p x = false) -> p m = true ->
    hd_error (filter p (pre ++ m :: post)) = Some m.
Proof.
  intros A p pre m post Hpre Hm. induction pre as [| a pre IH]; simpl.
  - rewrite Hm. reflexivity.
  - rewrite (Hpre a) by (left; reflexivity). apply IH.
    intros x Hin. apply Hpre. right. exact Hin.
Qed.

(** X8: when several entries of the catalog have the signature and the
    schema of [self], [get_db_definition] returns the first of them in the
    order of the catalog. *)
Theorem get_db_definition_first_match :
  forall (db : Type) (D : Database db) (self : PGFunction) (c : connection db)
         (pre : list PGFunction) (m : PGFunction) (post : list PGFunction),
    fst (get_db_functions (schema self) c) = Return (pre ++ m :: post)%list ->
    (forall x, In x pre -> is_equal_signature self x = false) ->
    is_equal_signature self m = true ->
    fst (get_db_definition self c) = Return (Some m).
Proof.
  intros db D self c pre m post E Hpre Hm.
  rewrite get_db_definition_eq, E. simpl.
  rewrite filter_first by assumption. reflexivity.
Qed.

(** Two rows with the signature of [Examples.to_upper]: the first wins. *)
Lemma get_db_definition_first_match_witness :
  fst (get_db_definition Examples.to_upper
         (MiniPg.connect
            (MiniPg.mkState ["public"]
               [MiniPg.row_of Examples.empty_sum; MiniPg.row_of Examples.to_upper_changed;
                MiniPg.row_of Examples.to_upper])))
  = Return (Some Examples.to_upper_changed).
Proof.
  apply (get_db_definition_first_match MiniPg.state MiniPg.database
           Examples.to_upper _ [Examples.empty_sum] Examples.to_upper_changed
           [Examples.to_upper]).
  - vm_compute. reflexivity.
  - intros x [<- | []]. vm_compute. reflexivity.
  - vm_compute. reflexivity.
Defined.

(** X9: the lookup reads the schema and the signature up to whitespace,
    and nothing else of the function: two functions that
    [is_equal_signature] holds equal are looked up alike, whatever their
    definitions. *)
Theorem get_db_definition_by_signature :
  forall (db : Type) (D : Database db) (f g : PGFunction) (c : connection db),
    is_equal_signature f g = true ->
    get_db_definition f c = get_db_definition g c.
Proof.
  intros db D f g c E. unfold is_equal_signature in E. cbv zeta in E.
  apply andb_true_iff in E. destruct E as [Es Ec].
  apply String.eqb_eq in Es. apply String.eqb_eq in Ec.
  rewrite !get_db_definition_eq, Ec.
  destruct (fst (get_db_functions (schema g) c)) as [fs | e]; [| reflexivity].
  do 3 f_equal. apply filter_ext. intro x.
  unfold is_equal_signature. cbv zeta. rewrite Es, Ec. reflexivity.
Qed.

(** The two layouts of [Examples]. *)
Lemma get_db_definition_by_signature_witness :
  get_db_definition Examples.to_upper_spaced (MiniPg.connect Examples.live_db)
  = get_db_definition Examples.to_upper (MiniPg.connect Examples.live_db).
Proof.
  apply (get_db_definition_by_signature MiniPg.state MiniPg.database
           Examples.to_upper_spaced Examples.to_upper).
  vm_compute. reflexivity.
Defined.

(** ** More on the comparison *)

Section DiffFacts.

Context {db : Type} `{Database db}.

Lemma get_db_definition_raises :
  forall (self : PGFunction) (c : connection db) (e : exn),
    fst (get_db_definition self c) = Raise e -> e = AssertionError.
Proof.
  intros self c e E. rewrite get_db_definition_eq, get_db_functions_eq in E.
  simpl in E.
  destruct (assert_not_none _) as [fs | e'] eqn:A; [discriminate |].
  apply assert_not_none_raise in A. destruct A as [-> _].
  inversion E. reflexivity.
Qed.

(** The statements of a run are the first ones of the three. *)
Lemma run_sends_prefix :
  forall (self : PGFunction) (c c' : connection db) (o : outcome (option op_class)),
    run self c o c' ->
    exists n, executed c' = (executed c ++ firstn n (Spec.scratch_statements self))%list.
Proof.
  intros self c c' o R. destruct R;
    repeat match goal with S : Spec.scratch_statements _ = _ |- _ => rewrite S; clear S end.
  - exists 0. simpl. rewrite app_nil_r. reflexivity.
  - exists 0. simpl. rewrite app_nil_r. reflexivity.
  - exists 1. reflexivity.
  - exists 2. reflexivity.
  - exists 2. reflexivity.
  - exists 2. reflexivity.
  - exists 3. reflexivity.
  - exists 3. reflexivity.
Qed.

(** On a database where the three statements keep to the scratch schema,
    a run, returning or raising, leaves the other schemas as they were. *)
Lemma run_frame :
  forall (self : PGFunction) (c c' : connection db) (o : outcome (option op_class)),
    (forall stmt d d' s,
        In stmt (Spec.scratch_statements self) ->
        db_execute stmt d = Some d' ->
        s <> Spec.scratch ->
        Spec.snapshot s d' = Spec.snapshot s d) ->
    run self c o c' ->
    forall s, s <> Spec.scratch ->
      Spec.snapshot s (backend c') = Spec.snapshot s (backend c).
Proof.
  intros self c c' o Hframe R s Hs.
  destruct R; cbn [backend]; try reflexivity;
    match goal with S : Spec.scratch_statements self = _ |- _ => rename S into St end;
    repeat match goal with
    | X : db_execute ?stmt ?d = Some ?d' |- _ =>
        assert (Spec.snapshot s d' = Spec.snapshot s d)
          by (apply (Hframe stmt); [rewrite St; simpl; auto | exact X | exact Hs]);
        clear X
    end; congruence.
Qed.

End DiffFacts.

(** X10: whatever the outcome of [get_required_migration_op], the
    statements it sent are the first ones of [create schema if not exists
    alembic_autogen;], the [CREATE OR REPLACE FUNCTION] of the function in
    [alembic_autogen] and [drop schema alembic_autogen cascade;], in this
    order, and nothing else; an error of the catalog reader comes before
    the first or after the second; and a call that returns Create leaves
    the connection as it was. *)
Theorem get_required_migration_op_statements :
  forall (db : Type) (D : Database db) (self : PGFunction) (c : connection db),
    (exists n,
        executed (snd (get_required_migration_op self c))
        = (executed c ++ firstn n (Spec.scratch_statements self))%list)
    /\ (fst (get_required_migration_op self c) = Raise AssertionError ->
        executed (snd (get_required_migration_op self c)) = executed c
        \/ executed (snd (get_required_migration_op self c))
           = (executed c ++ firstn 2 (Spec.scratch_statements self))%list)
    /\ (fst (get_required_migration_op self c) = Return (Some CreateFunctionOp) ->
        snd (get_required_migration_op self c) = c).
Proof.
  intros db D self c.
  pose proof (get_required_migration_op_run self c) as R.
  split; [exact (run_sends_prefix _ _ _ _ R) |].
  remember (fst (get_required_migration_op self c)) as o eqn:Eo.
  remember (snd (get_required_migration_op self c)) as c' eqn:Ec.
  clear Eo Ec. split; intro E.
  - destruct R; try discriminate; cbn [executed];
      repeat match goal with S : Spec.scratch_statements _ = _ |- _ => rewrite S; clear S end;
      auto.
  - destruct R; try discriminate; try reflexivity.
    destruct (is_equal_definition live tmp); discriminate.
Qed.

(** X11: when the function is live, the two statements are accepted and
    the lookup in the scratch schema finds nothing, the call raises
    [AttributeError] after the second statement: [drop schema
    alembic_autogen cascade;] is not sent and the database stays as the
    second statement left it. *)
Theorem get_required_migration_op_leaves_scratch :
  forall (db : Type) (D : Database db) (self live : PGFunction) (c : connection db)
         (s1 s2 s3 : string) (d1 d2 : db),
    fst (get_db_definition self c) = Return (Some live) ->
    Spec.scratch_statements self = [s1; s2; s3] ->
    db_execute s1 (backend c) = Some d1 ->
    db_execute s2 d1 = Some d2 ->
    fst (get_db_definition (adjusted_target self) (mkConnection d2 [])) = Return None ->
    get_required_migration_op self c
    = (Raise AttributeError, mkConnection d2 (executed c ++ [s1; s2])%list).
Proof.
  intros db D self live c s1 s2 s3 d1 d2 L S X1 X2 T.
  pose proof (get_required_migration_op_run self c) as R.
  destruct (get_required_migration_op self c) as [o c']. cbn [fst snd] in R.
  destruct R; same_statements; congruence.
Qed.

(** A database that ignores the statements: nothing is read back. *)
Lemma get_required_migration_op_leaves_scratch_witness :
  get_required_migration_op Examples.to_upper_changed
    (mkConnection (db := Frozen.state) [MiniPg.row_of Examples.to_upper] [])
  = (Raise AttributeError,
     mkConnection (db := Frozen.state) [MiniPg.row_of Examples.to_upper]
       ([] ++ [ "create schema if not exists alembic_autogen;";
                "CREATE OR REPLACE FUNCTION alembic_autogen.to_upper(some_text text) returns text as $$ select upper(some_text) || 'x' $$ language sql" ])%list).
Proof.
  apply (get_required_migration_op_leaves_scratch Frozen.state Frozen.database
           Examples.to_upper_changed Examples.to_upper
           (mkConnection (db := Frozen.state) [MiniPg.row_of Examples.to_upper] [])
           _ _ "drop schema alembic_autogen cascade;"
           [MiniPg.row_of Examples.to_upper] [MiniPg.row_of Examples.to_upper]).
  - vm_compute. reflexivity.
  - reflexivity.
  - reflexivity.
  - reflexivity.
  - vm_compute. reflexivity.
Defined.

(** X12: on a database where the three statements leave the rows of the
    schemas other than [alembic_autogen] as they were, a call to
    [get_required_migration_op] leaves them as they were also when it
    raises. *)
Theorem get_required_migration_op_isolated_on_error :
  forall (db : Type) (D : Database db) (self : PGFunction) (c : connection db),
    (forall stmt d d' s,
        In stmt (Spec.scratch_statements self) ->
        db_execute stmt d = Some d' ->
        s <> Spec.scratch ->
        Spec.snapshot s d' = Spec.snapshot s d) ->
    forall s, s <> Spec.scratch ->
      Spec.snapshot s (backend (snd (get_required_migration_op self c)))
      = Spec.snapshot s (backend c).
Proof.
  intros db D self c Hframe.
  apply (run_frame self c _ _ Hframe (get_required_migration_op_run self c)).
Qed.

Lemma minipg_exec_refused :
  forall (sql : string) (d : MiniPg.state),
    MiniPg.strip_prefix "create schema if not exists " sql = None ->
    MiniPg.strip_prefix "drop schema " sql = None ->
    from_sql sql = None ->
    MiniPg.exec sql d = None.
Proof.
  intros sql d P Q S. unfold MiniPg.exec. rewrite P, Q, S. reflexivity.
Qed.

(** A definition that cannot be parsed: the second statement is refused,
    and the rows of [public] are as before. *)
Lemma get_required_migration_op_isolated_on_error_witness :
  fst (get_required_migration_op Examples.to_upper_unfinished
         (MiniPg.connect Examples.live_db)) = Raise DatabaseError
  /\ forall s, s <> Spec.scratch ->
       Spec.snapshot s
         (backend (snd (get_required_migration_op Examples.to_upper_unfinished
                          (MiniPg.connect Examples.live_db))))
       = Spec.snapshot s (backend (MiniPg.connect Examples.live_db)).
Proof.
  split; [vm_compute; reflexivity |].
  apply (get_required_migration_op_isolated_on_error MiniPg.state MiniPg.database
           Examples.to_upper_unfinished (MiniPg.connect Examples.live_db)).
  intros stmt d d' s Hin X Hs. simpl in X.
  destruct Hin as [<- | [<- | [<- | []]]].
  - rewrite (minipg_exec_create_schema _ "alembic_autogen;" "alembic_autogen") in X
      by (vm_compute; reflexivity).
    inversion X. apply minipg_create_schema_frame.
  - rewrite minipg_exec_refused in X by (vm_compute; reflexivity). discriminate.
  - rewrite (minipg_exec_drop_schema _ "alembic_autogen cascade;" "alembic_autogen") in X
      by (vm_compute; reflexivity).
    destruct (MiniPg.has_schema _ d); inversion X.
    apply minipg_drop_schema_frame. exact Hs.
Defined.

(** ** More on rendering *)


(** ** Registration *)

Section Registration.

Context {db : Type} `{Database db}.

Lemma run_returns :
  forall (self : PGFunction) (c c' : connection db) (r : option op_class),
    run self c (Return r) c' ->
    (r = Some CreateFunctionOp /\ c' = c)
    \/ ((r = None \/ r = Some ReplaceFunctionOp)
        /\ executed c' = (executed c ++ Spec.scratch_statements self)%list).
Proof.
  intros self c c' r R. inversion R; subst.
  - left. auto.
  - right. split.
    + destruct (is_equal_definition live tmp); auto.
    + cbn [executed]. congruence.
Qed.

(** What a registration did, function by function. *)
Lemma registration_trace :
  forall (pg_functions : list PGFunction) (ops : list ReversibleOp) (c : connection db),
    exists compared,
      snd (fst (compare_registered_pg_functions pg_functions ops c))
      = (ops ++ Spec.collected compared)%list
      /\ map fst compared = firstn (List.length compared) pg_functions
      /\ Forall (fun fr : PGFunction * option op_class =>
                   snd fr = None \/ snd fr = Some CreateFunctionOp
                   \/ snd fr = Some ReplaceFunctionOp) compared
      /\ (fst (fst (compare_registered_pg_functions pg_functions ops c)) = Return tt ->
          List.length compared = List.length pg_functions
          /\ executed (snd (compare_registered_pg_functions pg_functions ops c))
             = (executed c ++ Spec.sent compared)%list)
      /\ (forall e,
            fst (fst (compare_registered_pg_functions pg_functions ops c)) = Raise e ->
            List.length compared < List.length pg_functions).
Proof.
  induction pg_functions as [| f rest IH]; intros ops c.
  - exists []. simpl. rewrite !app_nil_r.
    split; [reflexivity |]. split; [reflexivity |]. split; [constructor |].
    split; [auto | discriminate].
  - simpl.
    pose proof (get_required_migration_op_run f c) as R.
    destruct (get_required_migration_op f c) as [[r | e] c1]; cbn [fst snd] in R.
    + apply run_returns in R.
      assert (exists compared,
                 snd (fst (compare_registered_pg_functions rest
                             (ops ++ Spec.collected [(f, r)]) c1))
                 = ((ops ++ Spec.collected [(f, r)]) ++ Spec.collected compared)%list
                 /\ map fst compared = firstn (List.length compared) rest
                 /\ Forall (fun fr : PGFunction * option op_class =>
                              snd fr = None \/ snd fr = Some CreateFunctionOp
                              \/ snd fr = Some ReplaceFunctionOp) compared
                 /\ (fst (fst (compare_registered_pg_functions rest
                                 (ops ++ Spec.collected [(f, r)]) c1)) = Return tt ->
                     List.length compared = List.length rest
                     /\ executed (snd (compare_registered_pg_functions rest
                                         (ops ++ Spec.collected [(f, r)]) c1))
                        = (executed c1 ++ Spec.sent compared)%list)
                 /\ (forall e,
                       fst (fst (compare_registered_pg_functions rest
                                   (ops ++ Spec.collected [(f, r)]) c1)) = Raise e ->
                       List.length compared < List.length rest))
        as (compared & Eops & Efst & Ecls & Eret & Eraise) by apply IH.
      assert (compare_registered_pg_functions rest (ops ++ Spec.collected [(f, r)]) c1
              = match r with
                | Some op => compare_registered_pg_functions rest (ops ++ [mkOp op f]) c1
                | None => compare_registered_pg_functions rest ops c1
                end) as Step
        by (destruct r; simpl; rewrite ?app_nil_r; reflexivity).
      rewrite <- Step.
      exists ((f, r) :: compared). repeat split.
      * rewrite Eops, <- app_assoc. f_equal. destruct r; reflexivity.
      * simpl. rewrite Efst. reflexivity.
      * constructor; [| exact Ecls]. simpl. tauto.
      * simpl. f_equal. apply Eret. assumption.
      * destruct (Eret H0) as [_ ->]. unfold Spec.sent. simpl.
        fold (Spec.sent compared).
        destruct R as [[-> ->] | [[-> | ->] ->]]; simpl;
          rewrite <- ?app_assoc; reflexivity.
      * intros e X. simpl. apply Eraise in X. lia.
    + exists []. simpl. rewrite app_nil_r.
      split; [reflexivity |]. split; [reflexivity |]. split; [constructor |].
      split; [discriminate |]. intros; lia.
Qed.

Lemma registration_frame :
  forall (pg_functions : list PGFunction) (ops : list ReversibleOp) (c : connection db),
    (forall f stmt d d' s,
        In f pg_functions ->
        In stmt (Spec.scratch_statements f) ->
        db_execute stmt d = Some d' ->
        s <> Spec.scratch ->
        Spec.snapshot s d' = Spec.snapshot s d) ->
    forall s, s <> Spec.scratch ->
      Spec.snapshot s (backend (snd (compare_registered_pg_functions pg_functions ops c)))
      = Spec.snapshot s (backend c).
Proof.
  induction pg_functions as [| f rest IH]; intros ops c Hframe s Hs.
  - reflexivity.
  - simpl.
    pose proof (get_required_migration_op_run f c) as R.
    assert (Spec.snapshot s (backend (snd (get_required_migration_op f c)))
            = Spec.snapshot s (backend c)) as F.
    { eapply run_frame; [| exact R | exact Hs].
      intros stmt d d' s0. apply Hframe. left. reflexivity. }
    destruct (get_required_migration_op f c) as [[r | e] c1]; cbn [fst snd] in *.
    + rewrite <- F. destruct r; apply IH; try exact Hs;
        intros f0 stmt d d' s0 Hin; apply Hframe; right; exact Hin.
    + exact F.
Qed.

End Registration.


(** X15: a registration that ends sent, function by function and in their
    order, nothing for a function it adds a Create for and the three
    statements of the scratch schema for every other one, and nothing
    else. *)
Theorem compare_registered_pg_functions_statements :
  forall (db : Type) (D : Database db) (pg_functions : list PGFunction)
         (ops : list ReversibleOp) (c : connection db),
    fst (fst (compare_registered_pg_functions pg_functions ops c)) = Return tt ->
    exists compared,
      map fst compared = pg_functions
      /\ snd (fst (compare_registered_pg_functions pg_functions ops c))
         = (ops ++ Spec.collected compared)%list
      /\ executed (snd (compare_registered_pg_functions pg_functions ops c))
         = (executed c ++ Spec.sent compared)%list.
Proof.
  intros db D pg_functions ops c X.
  destruct (registration_trace pg_functions ops c)
    as (compared & Eops & Efst & _ & Eret & _).
  destruct (Eret X) as [L E].
  exists compared. repeat split; try assumption.
  rewrite Efst, L. apply firstn_all.
Qed.

(** A new function, an unchanged one and a changed one, registered. *)
Lemma compare_registered_pg_functions_statements_witness :
  exists compared,
    map fst compared
    = [Examples.empty_sum; Examples.to_upper_spaced; Examples.to_upper_changed]
    /\ snd (fst (compare_registered_pg_functions
                   [Examples.empty_sum; Examples.to_upper_spaced; Examples.to_upper_changed]
                   [] (MiniPg.connect Examples.live_db)))
       = ([] ++ Spec.collected compared)%list
    /\ executed (snd (compare_registered_pg_functions
                        [Examples.empty_sum; Examples.to_upper_spaced;
                         Examples.to_upper_changed]
                        [] (MiniPg.connect Examples.live_db)))
       = (executed (MiniPg.connect Examples.live_db) ++ Spec.sent compared)%list.
Proof.
  apply (compare_registered_pg_functions_statements MiniPg.state MiniPg.database).
  vm_compute. reflexivity.
Defined.

Example registration_ops :
  snd (fst (compare_registered_pg_functions
              [Examples.empty_sum; Examples.to_upper_spaced; Examples.to_upper_changed]
              [] (MiniPg.connect Examples.live_db)))
  = [mkOp CreateFunctionOp Examples.empty_sum;
     mkOp ReplaceFunctionOp Examples.to_upper_changed].
Proof. vm_compute. reflexivity. Qed.

(** X16: on a database where the three statements of each registered
    function leave the rows of the schemas other than [alembic_autogen] as
    they were, a whole registration leaves them as they were, whether it
    ends or a comparison raises. *)
Theorem compare_registered_pg_functions_isolated :
  forall (db : Type) (D : Database db) (pg_functions : list PGFunction)
         (ops : list ReversibleOp) (c : connection db),
    (forall f stmt d d' s,
        In f pg_functions ->
        In stmt (Spec.scratch_statements f) ->
        db_execute stmt d = Some d' ->
        s <> Spec.scratch ->
        Spec.snapshot s d' = Spec.snapshot s d) ->
    forall s, s <> Spec.scratch ->
      Spec.snapshot s (backend (snd (compare_registered_pg_functions pg_functions ops c)))
      = Spec.snapshot s (backend c).
Proof.
  intros db D. apply registration_frame.
Qed.

(** The changed function, registered twice. *)
Lemma compare_registered_pg_functions_isolated_witness :
  Spec.snapshot "public"
    (backend (snd (compare_registered_pg_functions
                     [Examples.to_upper_changed; Examples.to_upper_changed] []
                     (MiniPg.connect Examples.live_db))))
  = Spec.snapshot "public" (backend (MiniPg.connect Examples.live_db)).
Proof.
  apply (compare_registered_pg_functions_isolated MiniPg.state MiniPg.database
           [Examples.to_upper_changed; Examples.to_upper_changed] []
           (MiniPg.connect Examples.live_db)).
  - intros f stmt d d' s [<- | [<- | []]]; apply minipg_scratch_frame.
  - discriminate.
Defined.
